(** * Assembly Engine: indexer, intersection retriever and assemblers

    A shallow embedding of the Python sources
      - [src/indexer.py]          (class [Indexer]),
      - [src/retriever.py]        (class [IntersectionEngine]),
      - [src/assembler_bridge.py] (the constrained assembler and its
                                   deterministic fallback),
      - [src/assembler.py]        (class [Assembler]),
    together with the properties the specification states about them.

    Python [str] values are modelled as [string]; the character tables
    ([\w], [\d], [\s], [str.lower], [str.strip], [str.isidentifier]) are
    the ASCII ones: a character above 127 is neither a word character, a
    digit nor white space, and has no case.  Retrieval, whose result
    depends on the tables above 127, is modelled a second time
    ([TextRetriever]) on lists of code points with the tables as
    parameters.  Python dictionaries whose keys
    are fixed by the code are records whose fields are options ([None] is
    an absent key, so that [d.get(k, default)] is [default]); dictionaries
    whose insertion order is observable are association lists. *)

From Stdlib Require Import Ascii String DecimalString.
From stdpp Require Import base option list sets gmap strings.

(** ** Python string primitives *)

Module PyStr.

Definition ord (c : ascii) : N := N_of_ascii c.

Definition isupper (c : ascii) : bool := ((65 <=? ord c) && (ord c <=? 90))%N.
Definition islower (c : ascii) : bool := ((97 <=? ord c) && (ord c <=? 122))%N.
Definition isdigit (c : ascii) : bool := ((48 <=? ord c) && (ord c <=? 57))%N.

(** [\w]: letters, digits and the underscore. *)
Definition isword (c : ascii) : bool :=
  isupper c || islower c || isdigit c || (ord c =? 95)%N.

(** [\s] and [str.isspace]: TAB, LF, VT, FF, CR, the four separators
    FS, GS, RS, US, and the space. *)
Definition isspace (c : ascii) : bool :=
  ((9 <=? ord c) && (ord c <=? 13) || (28 <=? ord c) && (ord c <=? 32))%N.

Definition lower_char (c : ascii) : ascii :=
  if isupper c then ascii_of_N (ord c + 32) else c.

Fixpoint lower (s : string) : string :=
  match s with
  | "" => ""
  | String c s' => String (lower_char c) (lower s')
  end.

Fixpoint startswith (s prefix : string) {struct prefix} : bool :=
  match prefix, s with
  | "", _ => true
  | String _ _, "" => false
  | String a prefix', String b s' => Ascii.eqb a b && startswith s' prefix'
  end.

(** [sub in s] *)
Fixpoint str_in (sub s : string) : bool :=
  startswith s sub ||
  match s with
  | "" => false
  | String _ s' => str_in sub s'
  end.

(** [re.findall] of a pattern [p+], [p] a character class: the maximal
    runs of characters of the class, left to right.  [cur] is the run
    being read. *)
Definition flush (cur : string) : list string :=
  match cur with "" => [] | _ => [cur] end.

Fixpoint findall_go (p : ascii → bool) (cur s : string) : list string :=
  match s with
  | "" => flush cur
  | String c s' =>
      if p c then findall_go p (cur +:+ String c "") s'
      else flush cur ++ findall_go p "" s'
  end.

Definition findall (p : ascii → bool) (s : string) : list string :=
  findall_go p "" s.

(** [sep.join(l)] *)
Fixpoint join (sep : string) (l : list string) : string :=
  match l with
  | [] => ""
  | [x] => x
  | x :: l' => x +:+ sep +:+ join sep l'
  end.

(** [s.split(sep)] for a one-character separator: never empty. *)
Fixpoint split_go (sep : ascii) (cur s : string) : list string :=
  match s with
  | "" => [cur]
  | String c s' =>
      if Ascii.eqb c sep then cur :: split_go sep "" s'
      else split_go sep (cur +:+ String c "") s'
  end.

Definition split (sep : ascii) (s : string) : list string := split_go sep "" s.

(** [s.lstrip()], [s.rstrip()], [s.strip()] *)
Fixpoint lstrip (s : string) : string :=
  match s with
  | "" => ""
  | String c s' => if isspace c then lstrip s' else s
  end.

Fixpoint rstrip (s : string) : string :=
  match s with
  | "" => ""
  | String c s' =>
      match rstrip s' with
      | "" => if isspace c then "" else String c ""
      | r => String c r
      end
  end.

Definition strip (s : string) : string := rstrip (lstrip s).

(** [str(n)] for a natural number *)
Definition str (n : nat) : string := NilEmpty.string_of_uint (Nat.to_uint n).

(** [s.isidentifier()] *)
Definition isidstart (c : ascii) : bool :=
  isupper c || islower c || (ord c =? 95)%N.

Fixpoint all_chars (p : ascii → bool) (s : string) : bool :=
  match s with
  | "" => true
  | String c s' => p c && all_chars p s'
  end.

Definition isidentifier (s : string) : bool :=
  match s with
  | "" => false
  | String c s' => isidstart c && all_chars isword s'
  end.

End PyStr.

(** ** The data model: signatures, chunks and assembly results *)

(** [{"params": [...], "returns": ...}] *)
Record Signature := {
  params : option (list string);
  returns : option string
}.

Definition empty_signature : Signature := {| params := Some []; returns := None |}.

(** A chunk as the retriever returns it and the assemblers read it. *)
Record Chunk := {
  source : option string;
  filename : option string;
  func_name : option string;
  signature : option Signature
}.

(** A value of the index: the old format (a bare source string) or the
    new one (a dictionary with source, filename and signature). *)
Inductive IndexValue :=
| Legacy (source_code : string)
| Structured (src : option string) (fname : option string) (sig : option Signature).

(** [{"reasoning": ..., "code": ..., "filename": ...}]; [out_filename] is
    the key ["filename"]. *)
Record AssemblyResult := {
  reasoning : string;
  code : string;
  out_filename : string
}.

(** ** The intersection retriever ([src/retriever.py]) *)

Module Retriever.
Import PyStr.

Abbreviation Index := (list (string * IndexValue)).

(** [tokens = set(re.findall(r'\w+', query))] and
    [target_tokens = [t for t in tokens if len(t) > 3]] *)
Definition tokens (query : string) : gset string :=
  list_to_set (findall isword query).

Definition target_tokens (query : string) : list string :=
  filter (λ t, 3 < String.length t) (elements (tokens query)).

(** The inner loop over the target tokens, with its [break]. *)
Fixpoint matches_all (target : list string) (source_lower func_name_lower : string) : bool :=
  match target with
  | [] => true
  | token :: rest =>
      let token_lower := lower token in
      if negb (str_in token_lower source_lower) && negb (str_in token_lower func_name_lower)
      then false
      else matches_all rest source_lower func_name_lower
  end.

Definition entry_fields (chunk_data : IndexValue) : string * string * Signature :=
  match chunk_data with
  | Structured src fname sig =>
      (default "" src, default "unknown" fname, default empty_signature sig)
  | Legacy source_code => (source_code, "unknown", empty_signature)
  end.

Fixpoint search_loop (target : list string) (index : Index) : list Chunk :=
  match index with
  | [] => []
  | (func_name, chunk_data) :: rest =>
      let '(source_code, filename, signature) := entry_fields chunk_data in
      let source_lower := lower source_code in
      let func_name_lower := lower func_name in
      if matches_all target source_lower func_name_lower
      then {| source := Some source_code; filename := Some filename;
              func_name := Some func_name; signature := Some signature |}
           :: search_loop target rest
      else search_loop target rest
  end.

Definition search (index : Index) (query : string) : option (list Chunk) :=
  let target_tokens := target_tokens query in
  match target_tokens with
  | [] => None
  | _ =>
      match search_loop target_tokens index with
      | [] => None
      | final_results => Some final_results
      end
  end.

End Retriever.

(** ** The intersection retriever on Unicode text ([src/retriever.py])

    [IntersectionEngine.search] once more, on Python's [str] as it is: a
    text is the list of its code points, and the two tables of Python that
    the function consults, the class [\w] and [str.lower], are parameters.
    Nothing is assumed of them; in particular [str.lower] may change the
    length of a text. *)

Module TextRetriever.

Record USignature := {
  u_params : option (list (list N));
  u_returns : option (list N)
}.

Record UChunk := {
  u_source : option (list N);
  u_filename : option (list N);
  u_func_name : option (list N);
  u_signature : option USignature
}.

Inductive UIndexValue :=
| ULegacy (source_code : list N)
| UStructured (src : option (list N)) (fname : option (list N)) (sig : option USignature).

(** The code points of a literal of the source. *)
Definition cps (s : string) : list N := N_of_ascii <$> list_ascii_of_string s.

Definition u_empty_signature : USignature := {| u_params := Some []; u_returns := None |}.

Fixpoint startswith (s prefix : list N) {struct prefix} : bool :=
  match prefix, s with
  | [], _ => true
  | _ :: _, [] => false
  | a :: prefix', b :: s' => N.eqb a b && startswith s' prefix'
  end.

(** [sub in s] *)
Fixpoint str_in (sub s : list N) : bool :=
  startswith s sub ||
  match s with
  | [] => false
  | _ :: s' => str_in sub s'
  end.

Definition flush (cur : list N) : list (list N) :=
  match cur with [] => [] | _ => [cur] end.

(** [re.findall] of [p+] for a class [p] of code points. *)
Fixpoint findall_go (p : N → bool) (cur s : list N) : list (list N) :=
  match s with
  | [] => flush cur
  | c :: s' =>
      if p c then findall_go p (cur ++ [c]) s'
      else flush cur ++ findall_go p [] s'
  end.

Definition findall (p : N → bool) (s : list N) : list (list N) := findall_go p [] s.

Section Tables.
(** Python's tables:
    - [isword c]: whether [\w] matches the code point [c];
    - [lower]: [str.lower]. *)
Variable isword : N → bool.
Variable lower : list N → list N.

Definition tokens (query : list N) : gset (list N) :=
  list_to_set (findall isword query).

Definition target_tokens (query : list N) : list (list N) :=
  filter (λ t, 3 < length t) (elements (tokens query)).

Fixpoint matches_all (target : list (list N)) (source_lower func_name_lower : list N) : bool :=
  match target with
  | [] => true
  | token :: rest =>
      let token_lower := lower token in
      if negb (str_in token_lower source_lower) && negb (str_in token_lower func_name_lower)
      then false
      else matches_all rest source_lower func_name_lower
  end.

Definition entry_fields (chunk_data : UIndexValue) : list N * list N * USignature :=
  match chunk_data with
  | UStructured src fname sig =>
      (default [] src, default (cps "unknown") fname, default u_empty_signature sig)
  | ULegacy source_code => (source_code, cps "unknown", u_empty_signature)
  end.

Fixpoint search_loop (target : list (list N)) (index : list (list N * UIndexValue))
    : list UChunk :=
  match index with
  | [] => []
  | (func_name, chunk_data) :: rest =>
      let '(source_code, filename, signature) := entry_fields chunk_data in
      let source_lower := lower source_code in
      let func_name_lower := lower func_name in
      if matches_all target source_lower func_name_lower
      then {| u_source := Some source_code; u_filename := Some filename;
              u_func_name := Some func_name; u_signature := Some signature |}
           :: search_loop target rest
      else search_loop target rest
  end.

Definition search (index : list (list N * UIndexValue)) (query : list N)
    : option (list UChunk) :=
  let target_tokens := target_tokens query in
  match target_tokens with
  | [] => None
  | _ =>
      match search_loop target_tokens index with
      | [] => None
      | final_results => Some final_results
      end
  end.

End Tables.

(** *** Python's tables on the code points of an example

    [\w] and [str.lower] restricted to ASCII and to the two code points
    U+0130 (capital I with dot above, a letter, whose lower case is [i]
    followed by U+0307) and U+0307 (combining dot above, not a word
    character). *)
Definition isword_example (c : N) : bool :=
  ((48 <=? c) && (c <=? 57) || (65 <=? c) && (c <=? 90) || (97 <=? c) && (c <=? 122)
   || (c =? 95) || (c =? 304))%N.

Definition lower_example (s : list N) : list N :=
  s ≫= λ c, if ((65 <=? c) && (c <=? 90))%N then [(c + 32)%N]
            else if (c =? 304)%N then [105%N; 775%N]
            else [c].

End TextRetriever.

(** ** The indexer ([src/indexer.py]) *)

Module Indexer.
Import PyStr.

(** A tree-sitter node: its type, the text of its byte range (decoded),
    and its children, each with the field name it is attached under. *)
#[warnings="-register-all"]
Inductive Node :=
| mkNode (type : string) (text : string) (children : list (option string * Node)).

Definition type (n : Node) : string := let 'mkNode t _ _ := n in t.
Definition text (n : Node) : string := let 'mkNode _ s _ := n in s.
Definition children (n : Node) : list Node := let 'mkNode _ _ cs := n in snd <$> cs.

Fixpoint find_field (field : string) (cs : list (option string * Node)) : option Node :=
  match cs with
  | [] => None
  | (Some f, n) :: cs' => if String.eqb f field then Some n else find_field field cs'
  | (None, _) :: cs' => find_field field cs'
  end.

Definition child_by_field_name (n : Node) (field : string) : option Node :=
  let 'mkNode _ _ cs := n in find_field field cs.

(** [child.child_by_field_name("name") or child.children[0] if child.children else None] *)
Definition name_child (child : Node) : option Node :=
  match children child with
  | [] => None
  | first :: _ => Some (default first (child_by_field_name child "name"))
  end.

(** The loop over [params_node.children]. *)
Fixpoint collect_params (cs : list Node) (acc : list string) : list string :=
  match cs with
  | [] => acc
  | child :: rest =>
      if String.eqb (type child) "identifier" then
        collect_params rest (acc ++ [text child])
      else if String.eqb (type child) "typed_parameter" then
        match name_child child with
        | Some n => collect_params rest (acc ++ [text n])
        | None => collect_params rest acc
        end
      else if String.eqb (type child) "default_parameter" then
        match name_child child with
        | Some n => collect_params rest (acc ++ [text n])
        | None => collect_params rest acc
        end
      else collect_params rest acc
  end.

Definition extract_signature (node : Node) : Signature :=
  match child_by_field_name node "parameters" with
  | Some params_node =>
      {| params := Some (collect_params (children params_node) []); returns := None |}
  | None => empty_signature
  end.

(** [d[k] = v] on a dictionary that keeps insertion order. *)
Fixpoint dict_set {V} (k : string) (v : V) (d : list (string * V)) : list (string * V) :=
  match d with
  | [] => [(k, v)]
  | (k', v') :: d' =>
      if String.eqb k' k then (k', v) :: d' else (k', v') :: dict_set k v d'
  end.

Fixpoint dict_get {V} (k : string) (d : list (string * V)) : option V :=
  match d with
  | [] => None
  | (k', v) :: d' => if String.eqb k' k then Some v else dict_get k d'
  end.

(** The state [parse_file] works on: [self.index] and [extracted_chunks]. *)
Record State := {
  index : list (string * IndexValue);
  extracted_chunks : list (string * string)
}.

Section WithHash.
(** [hashlib.sha256(s.encode("utf8")).hexdigest()] *)
Variable sha256 : string → string.

(** The body of the loop over the captured nodes. *)
Definition process_node (current_file capture_name : string) (node : Node) (st : State) : State :=
  if String.eqb capture_name "function" || String.eqb capture_name "class" then
    let chunk_source := text node in
    match child_by_field_name node "name" with
    | Some name_node =>
        let func_name := text name_node in
        let signature := extract_signature node in
        let chunk_id := sha256 chunk_source in
        {| index := dict_set func_name
                      (Structured (Some chunk_source) (Some current_file) (Some signature))
                      (index st);
           extracted_chunks := dict_set func_name chunk_source (extracted_chunks st) |}
    | None => st
    end
  else st.

Definition process_capture (current_file : string) (capture : string * list Node) (st : State) : State :=
  foldl (λ st node, process_node current_file capture.1 node st) st capture.2.

(** [parse_file]: [captures] is what the query cursor returns for the
    parsed file, [current_file] the path's base name without extension;
    the result is the new [self.index] and the returned dictionary. *)
Definition parse_file (current_file : string) (captures : list (string * list Node))
    (index0 : list (string * IndexValue)) : State :=
  foldl (λ st capture, process_capture current_file capture st)
        {| index := index0; extracted_chunks := [] |} captures.
End WithHash.

(** *** Syntax trees of parameter lists

    How tree-sitter's Python grammar lays out a [parameters] node for the
    three kinds of parameter the indexer reads. *)
Inductive ParamDecl :=
| Plain (name : string)
| Typed (name ty : string)
| WithDefault (name value : string).

Definition decl_name (d : ParamDecl) : string :=
  match d with Plain n | Typed n _ | WithDefault n _ => n end.

Definition leaf (ty txt : string) : Node := mkNode ty txt [].

Definition param_node (d : ParamDecl) : Node :=
  match d with
  | Plain n => leaf "identifier" n
  | Typed n ty =>
      mkNode "typed_parameter" (n +:+ ": " +:+ ty)
        [(None, leaf "identifier" n); (None, leaf ":" ":");
         (Some "type", leaf "type" ty)]
  | WithDefault n v =>
      mkNode "default_parameter" (n +:+ "=" +:+ v)
        [(Some "name", leaf "identifier" n); (None, leaf "=" "=");
         (Some "value", leaf "expression" v)]
  end.

Fixpoint comma_separated (ds : list ParamDecl) : list (option string * Node) :=
  match ds with
  | [] => []
  | [d] => [(None, param_node d)]
  | d :: ds' => (None, param_node d) :: (None, leaf "," ",") :: comma_separated ds'
  end.

Definition parameters_node (ds : list ParamDecl) : Node :=
  mkNode "parameters" ("(" +:+ join ", " (text ∘ param_node <$> ds) +:+ ")")
    ([(None, leaf "(" "(")] ++ comma_separated ds ++ [(None, leaf ")" ")")]).

(** [def name(ds): pass] *)
Definition function_definition (name : string) (ds : list ParamDecl) : Node :=
  let ps := parameters_node ds in
  mkNode "function_definition" ("def " +:+ name +:+ text ps +:+ ": pass")
    [(None, leaf "def" "def"); (Some "name", leaf "identifier" name);
     (Some "parameters", ps); (None, leaf ":" ":");
     (Some "body", leaf "block" "pass")].

End Indexer.


(** ** The constrained assembler bridge ([src/assembler_bridge.py]) *)

Module Bridge.
Import PyStr.

Definition LF : ascii := "010"%char.
Definition nl : string := String LF "".
Definition dq : string := String "034"%char "".

(** *** Regular-expression substitution

    [re.sub(pattern, '', s, flags=re.MULTILINE)] for a pattern that never
    matches the empty string.  [m bol s] is the length of the match of the
    pattern at the head of [s], if any; [bol] tells whether [^] holds there
    (start of the text, or just after a line feed).  [skip] counts the
    characters of the current match still to be deleted. *)
Fixpoint sub_go (m : bool → string → option nat) (skip : nat) (bol : bool) (s : string) : string :=
  match s with
  | "" => ""
  | String c s' =>
      let bol' := Ascii.eqb c LF in
      match skip with
      | S k => sub_go m k bol' s'
      | 0 =>
          match m bol s with
          | Some (S k) => sub_go m k bol' s'
          | _ => String c (sub_go m 0 bol' s')
          end
      end
  end.

Definition re_sub_delete (m : bool → string → option nat) (s : string) : string :=
  sub_go m 0 true s.

Fixpoint drop_chars (n : nat) (s : string) : string :=
  match n, s with
  | S n', String _ s' => drop_chars n' s'
  | _, _ => s
  end.

(** Length of the longest prefix of [s] made of characters in [p]. *)
Fixpoint span_len (p : ascii → bool) (s : string) : nat :=
  match s with
  | String c s' => if p c then S (span_len p s') else 0
  | "" => 0
  end.

(** The largest [q < w] with a line feed at index [q] of [s]. *)
Fixpoint last_newline (w : nat) (s : string) : option nat :=
  match w, s with
  | S w', String c s' =>
      match last_newline w' s' with
      | Some q => Some (S q)
      | None => if Ascii.eqb c LF then Some 0 else None
      end
  | _, _ => None
  end.

(** [^```(?:python|py)?\s*\n?]: the greedy [\s*] takes the whole white
    space after the fence, so the optional line feed never takes anything. *)
Definition fence_open (bol : bool) (s : string) : option nat :=
  if bol && startswith s "```" then
    let r := drop_chars 3 s in
    let k := if startswith r "python" then 6 else if startswith r "py" then 2 else 0 in
    Some (3 + k + span_len isspace (drop_chars k r))
  else None.

(** [\n?```\s*$]: [$] holds at the end of the text or before a line feed,
    so [\s*] gives back characters down to the last line feed it took,
    unless the white space reaches the end of the text. *)
Definition fence_close (bol : bool) (s : string) : option nat :=
  let n0 := if startswith s nl then 1 else 0 in
  let r := drop_chars n0 s in
  if startswith r "```" then
    let r2 := drop_chars 3 r in
    let w := span_len isspace r2 in
    if Nat.eqb w (String.length r2) then Some (n0 + 3 + w)
    else match last_newline w r2 with
         | Some q => Some (n0 + 3 + q)
         | None => None
         end
  else None.

(** [^from output import.*\n?] *)
Definition self_import (bol : bool) (s : string) : option nat :=
  if bol && startswith s "from output import" then
    let r := drop_chars 18 s in
    let k := span_len (λ c, negb (Ascii.eqb c LF)) r in
    Some (18 + k + (if startswith (drop_chars k r) nl then 1 else 0))
  else None.

Definition clean_code (code : string) : string :=
  let code := re_sub_delete fence_open code in
  let code := re_sub_delete fence_close code in
  let code := re_sub_delete self_import code in
  strip code.

(** *** The deterministic assembler *)

(** [imports]: file name to the list of its functions, in insertion order.
    [dict_update k f d] is [if k not in d: d[k] = []] followed by
    [d[k] = f(d[k])]. *)
Fixpoint dict_update (k : string) (f : list string → list string)
    (d : list (string * list string)) : list (string * list string) :=
  match d with
  | [] => [(k, f [])]
  | (k', v) :: d' =>
      if String.eqb k' k then (k', f v) :: d' else (k', v) :: dict_update k f d'
  end.

Definition append_new (func_name : string) (funcs : list string) : list string :=
  if bool_decide (func_name ∈ funcs) then funcs else funcs ++ [func_name].

(** An element of [function_info]; [fn_params] is its key ["params"]. *)
Record FunctionInfo := {
  name : string;
  fn_params : list string;
  param_count : nat
}.

Definition chunk_filename (chunk : Chunk) : string := default "unknown" (filename chunk).
Definition chunk_func_name (chunk : Chunk) : string := default "unknown" (func_name chunk).

(** [signature.get("params", [])] with the leading ['self'] skipped. *)
Definition chunk_params (chunk : Chunk) : list string :=
  let signature := default empty_signature (signature chunk) in
  let params := default [] (params signature) in
  match params with
  | p0 :: rest => if String.eqb p0 "self" then rest else params
  | [] => params
  end.

Definition det_imports (chunks : list Chunk) : list (string * list string) :=
  foldl (λ imports chunk,
           dict_update (chunk_filename chunk) (append_new (chunk_func_name chunk)) imports)
        [] chunks.

Definition function_info (chunks : list Chunk) : list FunctionInfo :=
  (λ chunk, let params := chunk_params chunk in
            {| name := chunk_func_name chunk; fn_params := params;
               param_count := length params |}) <$> chunks.

Definition import_line (entry : string * list string) : string :=
  "from " +:+ entry.1 +:+ " import " +:+ join ", " entry.2.

Definition make_import_block (imports : list (string * list string)) : string :=
  join nl (import_line <$> imports).

(** [re.findall(r'\d+', query)] *)
Definition numbers_of (query : string) : list string := findall isdigit query.

(** [for j in range(param_count)]: the arguments from position [j] on,
    [todo] positions left, and the value of [number_idx] after the loop. *)
Fixpoint build_args (result_var : option string) (numbers : list string)
    (j todo number_idx : nat) : list string * nat :=
  match todo with
  | 0 => ([], number_idx)
  | S todo' =>
      match result_var, j with
      | Some r, 0 =>
          let '(args, idx) := build_args result_var numbers (S j) todo' number_idx in
          (r :: args, idx)
      | _, _ =>
          match numbers !! number_idx with
          | Some n =>
              let '(args, idx) := build_args result_var numbers (S j) todo' (number_idx + 1) in
              (n :: args, idx)
          | None =>
              let '(args, idx) := build_args result_var numbers (S j) todo' number_idx in
              (str (10 + j) :: args, idx)
          end
      end
  end.

(** [for i, func in enumerate(function_info)]: the lines appended to
    [code_lines] from step [i] on, and the final [result_var]. *)
Fixpoint build_calls (numbers : list string) (i number_idx : nat) (result_var : option string)
    (infos : list FunctionInfo) : list string * option string :=
  match infos with
  | [] => ([], result_var)
  | func :: rest =>
      let func_name := name func in
      let param_count := param_count func in
      let comment := "# Step " +:+ str (i + 1) +:+ ": Call " +:+ func_name +:+
                     " (" +:+ str param_count +:+ " params)" in
      let '(args, number_idx) := build_args result_var numbers 0 param_count number_idx in
      let arg_str := join ", " args in
      match param_count with
      | 0 =>
          let '(lines, rv) := build_calls numbers (S i) number_idx result_var rest in
          (comment :: (func_name +:+ "()") :: lines, rv)
      | _ =>
          let '(lines, rv) := build_calls numbers (S i) number_idx (Some "result") rest in
          (comment :: ("result = " +:+ func_name +:+ "(" +:+ arg_str +:+ ")") :: lines, rv)
      end
  end.

Definition print_result : string := "print(f'Result: {result}')".

Definition build_deterministic_code (chunks : list Chunk) (query : string) : AssemblyResult :=
  match chunks with
  | [] =>
      {| reasoning := "ERROR: No matching chunks found. Cannot proceed.";
         code := "# Error: Insufficient data for assembly";
         out_filename := "output.py" |}
  | _ =>
      let imports := det_imports chunks in
      let function_info := function_info chunks in
      let import_block := make_import_block imports in
      let numbers := numbers_of query in
      let '(calls, result_var) := build_calls numbers 0 0 None function_info in
      let code_lines :=
        [import_block; ""] ++ calls ++
        match result_var with Some _ => [""; print_result] | None => [] end in
      {| reasoning := "Deterministic assembly using " +:+ str (length chunks) +:+
                      " chunks with signature-aware calls: " +:+
                      join ", " (name <$> function_info);
         code := join nl code_lines;
         out_filename := "output.py" |}
  end.

(** *** The constrained assembler and its validator chain *)

(** What [json.loads] makes of a field that the code reads as a string. *)
Inductive JField :=
| JAbsent
| JString (s : string)
| JOther.

(** The object parsed from the model's response. *)
Record ModelData := {
  data_reasoning : option string;
  data_code : JField;
  data_filename : option string
}.

(** [data.get('code', '')] as a string; [None] when the field is not a
    string, on which [clean_code] raises a [TypeError]. *)
Definition get_code (data : ModelData) : option string :=
  match data_code data with
  | JAbsent => Some ""
  | JString s => Some s
  | JOther => None
  end.

(** [imports[fname].append(func_name)]: no deduplication here. *)
Definition glue_imports (chunks : list Chunk) : list (string * list string) :=
  foldl (λ imports chunk,
           dict_update (chunk_filename chunk) (λ funcs, funcs ++ [chunk_func_name chunk]) imports)
        [] chunks.

(** An f-string prints [None] for a key that [c.get(key)] does not find. *)
Definition fmt (o : option string) : string := default "None" o.

Definition context_of (c : Chunk) : string :=
  "# " +:+ fmt (func_name c) +:+ " from " +:+ fmt (filename c) +:+ ":" +:+ nl +:+ fmt (source c).

Definition error_section_of (error_context : option string) : string :=
  match error_context with
  | None | Some "" => ""
  | Some e =>
      nl +:+ "PREVIOUS ATTEMPT FAILED with this error:" +:+ nl +:+ "```" +:+ nl +:+
      e +:+ nl +:+ "```" +:+ nl +:+ "FIX THE ERROR and generate correct code." +:+ nl
  end.

Definition schema_example : string :=
  "{" +:+ dq +:+ "reasoning" +:+ dq +:+ ": " +:+ dq +:+ "..." +:+ dq +:+ ", " +:+
  dq +:+ "code" +:+ dq +:+ ": " +:+ dq +:+ "..." +:+ dq +:+ ", " +:+
  dq +:+ "filename" +:+ dq +:+ ": " +:+ dq +:+ "output.py" +:+ dq +:+ "}".

Definition build_prompt (import_block context_str query error_section : string) : string :=
  join nl [
    "<|im_start|>system";
    "You are a CODE ASSEMBLER, not a code generator. You MUST:";
    "1. Use ONLY the functions provided below - no new implementations";
    "2. Output valid JSON matching this exact schema: " +:+ schema_example;
    "3. The " +:+ dq +:+ "code" +:+ dq +:+ " field must start with these exact imports:";
    import_block;
    "";
    "Available functions (USE THESE ONLY):";
    context_str;
    "<|im_end|>";
    "<|im_start|>user";
    "Assemble code to: " +:+ query;
    "Remember: Just CALL the provided functions. Do not implement new logic.";
    error_section +:+ "<|im_end|>";
    "<|im_start|>assistant";
    ""
  ].

(** The import block and the prompt that [generate_glue_code] builds. *)
Definition import_block_for (chunks : list Chunk) : string :=
  make_import_block (glue_imports chunks).

Definition prompt_for (chunks : list Chunk) (query : string)
    (error_context : option string) : string :=
  let import_block := import_block_for chunks in
  let context_str := join (nl +:+ nl) (context_of <$> chunks) in
  let error_section := error_section_of error_context in
  build_prompt import_block context_str query error_section.

(** [any(fn in code for fn in func_names)]; [None] is the [TypeError] that
    [None in code] raises for a chunk without a ["func_name"]. *)
Fixpoint any_in (code : string) (func_names : list (option string)) : option bool :=
  match func_names with
  | [] => Some false
  | None :: _ => None
  | Some fn :: rest => if str_in fn code then Some true else any_in code rest
  end.

(** [line.split('=', 1)] on a line that contains ['=']. *)
Fixpoint split_once (s : string) : string * string :=
  match s with
  | "" => ("", "")
  | String c s' =>
      if Ascii.eqb c "="%char then ("", s')
      else let '(l, r) := split_once s' in (String c l, r)
  end.

Definition sentinels : list string := ["result"; "output"; "value"; "total"].

(** The use-before-define scan over [code.split('\n')]; [true] when it
    reaches its [return build_deterministic_code(chunks, query)]. *)
Fixpoint use_before_define (lines : list string) (defined_vars : gset string) : bool :=
  match lines with
  | [] => false
  | line :: rest =>
      let line := strip line in
      if str_in "=" line && negb (startswith line "#") && negb (startswith line "def ") then
        if str_in "==" line || str_in "!=" line || str_in "<=" line || str_in ">=" line then
          use_before_define rest defined_vars
        else
          let '(p0, p1) := split_once line in
          let lhs := strip p0 in
          let rhs := strip p1 in
          if existsb (λ var, str_in var rhs && negb (bool_decide (var ∈ defined_vars))) sentinels
          then true
          else if negb (String.eqb lhs "") && isidentifier lhs
               then use_before_define rest ({[lhs]} ∪ defined_vars)
               else use_before_define rest defined_vars
      else use_before_define rest defined_vars
  end.

(** The import check: [if import_block not in code: code = import_block + "\n\n" + code] *)
Definition with_imports (import_block code : string) : string :=
  if str_in import_block code then code else import_block +:+ nl +:+ nl +:+ code.

Definition has_print (code : string) : bool := str_in "print(" code.
Definition has_result_assignment (code : string) : bool :=
  str_in "result =" code || str_in "result=" code.

Definition empty_chunks_result : AssemblyResult :=
  {| reasoning := "ERROR: Set intersection returned empty. No matching code chunks.";
     code := "raise RuntimeError('Insufficient data: No matching chunks found')";
     out_filename := "output.py" |}.

Section Model.
(** The collaborators of the assembler that are not part of it:
    - [model_loaded]: whether [_model and _tokenizer] holds after [load_model()];
    - [generate]: the model, from the prompt to its response ([None]: it raised);
    - [re_search_json]: the text of the first match of the JSON pattern in
      the response, if any;
    - [json_loads]: [json.loads] on that text ([None]: [JSONDecodeError]);
    - [py_compiles]: whether [compile(code, '<generated>', 'exec')] succeeds. *)
Variable model_loaded : bool.
Variable generate : string → option string.
Variable re_search_json : string → option string.
Variable json_loads : string → option ModelData.
Variable py_compiles : string → bool.

(** The validator chain, from the cleaned code on; [None] stands for
    [return build_deterministic_code(chunks, query)] (or for an exception,
    which leads to the same fallback). *)
Definition validate (import_block : string) (func_names : list (option string))
    (code : string) : option string :=
  let code := with_imports import_block code in
  match any_in code func_names with
  | None | Some false => None
  | Some true =>
      if negb (py_compiles code) then None
      else if use_before_define (split LF code) ∅ then None
      else
        let has_print := has_print code in
        let has_result_assignment := has_result_assignment code in
        if negb has_print && negb has_result_assignment then None
        else if has_result_assignment && negb has_print
             then Some (rstrip code +:+ nl +:+ print_result)
             else Some code
  end.

Definition generate_glue_code (chunks : list Chunk) (query : string)
    (error_context : option string) : AssemblyResult :=
  match chunks with
  | [] => empty_chunks_result
  | _ =>
      let import_block := import_block_for chunks in
      let prompt := prompt_for chunks query error_context in
      let fallback := build_deterministic_code chunks query in
      if model_loaded then
        match generate prompt with
        | None => fallback
        | Some response =>
            match re_search_json response with
            | None => fallback
            | Some matched =>
                match json_loads matched with
                | None => fallback
                | Some data =>
                    match get_code data with
                    | None => fallback
                    | Some code =>
                        let code := clean_code code in
                        match validate import_block (func_name <$> chunks) code with
                        | None => fallback
                        | Some code =>
                            {| reasoning := default "LLM assembly" (data_reasoning data);
                               code := code;
                               out_filename := "output.py" |}
                        end
                    end
                end
            end
        end
      else fallback
  end.

(** The request read from standard input. *)
Record Request := {
  req_chunks : option (list Chunk);
  req_query : option string
}.

(** The program run as a script: [json_loads_request] is [json.loads] on
    the input, [inl e] a [JSONDecodeError] with message [e]; the result is
    what is printed, if anything. *)
Definition main (json_loads_request : string → string + Request) (input_data : string)
    : option AssemblyResult :=
  match input_data with
  | "" => None
  | _ =>
      match json_loads_request input_data with
      | inr request =>
          let chunks := default [] (req_chunks request) in
          let query := default "" (req_query request) in
          Some (generate_glue_code chunks query None)
      | inl e =>
          Some {| reasoning := "JSON Parse Error: " +:+ e;
                  code := "# Error parsing input";
                  out_filename := "output.py" |}
      end
  end.

End Model.

End Bridge.


(** ** The model-backed assembler of the interactive tool ([src/assembler.py]) *)

Module AssemblerPy.
Import PyStr.
Import Bridge (nl, dq, LF, re_sub_delete, fence_open, fence_close, drop_chars,
               span_len, last_newline, ModelData, data_reasoning, data_code,
               data_filename, JField, JAbsent, JString, JOther, dict_update,
               import_line).

(** [^python3?\s*\n]: the white space is given back down to its last line
    feed, which the final [\n] takes. *)
Definition python_word (bol : bool) (s : string) : option nat :=
  if bol && startswith s "python" then
    let r := drop_chars 6 s in
    let k := if startswith r "3" then 1 else 0 in
    let r2 := drop_chars k r in
    match last_newline (span_len isspace r2) r2 with
    | Some q => Some (6 + k + q + 1)
    | None => None
    end
  else None.

(** The pattern of [code.replace('```', '')]. *)
Definition backticks (bol : bool) (s : string) : option nat :=
  if startswith s "```" then Some 3 else None.

Definition _clean_code (code : string) : string :=
  let code := re_sub_delete fence_open code in
  let code := re_sub_delete fence_close code in
  let code := re_sub_delete python_word code in
  let code := re_sub_delete backticks code in
  strip code.

Definition chunk_filename (chunk : Chunk) : string := default "unknown" (filename chunk).
Definition chunk_func_name (chunk : Chunk) : string := default "unknown" (func_name chunk).

Definition context_part (chunk : Chunk) : string :=
  "# From " +:+ chunk_filename chunk +:+ ".py - function: " +:+ chunk_func_name chunk +:+
  nl +:+ default "" (source chunk).

Definition _build_prompt (chunks : list Chunk) (user_request : string) : string :=
  let files :=
    foldl (λ files chunk,
             dict_update (chunk_filename chunk) (λ funcs, funcs ++ [chunk_func_name chunk]) files)
          [] chunks in
  let import_block := join nl (import_line <$> files) in
  let context := join (nl +:+ nl) (context_part <$> chunks) in
  let system_msg := join nl [
    "You are a deterministic code assembler. You MUST follow these rules EXACTLY:";
    "";
    "1. OUTPUT FORMAT: Respond with ONLY valid JSON:";
    "   {" +:+ dq +:+ "reasoning" +:+ dq +:+ ": " +:+ dq +:+ "explanation" +:+ dq +:+ ", " +:+
      dq +:+ "code" +:+ dq +:+ ": " +:+ dq +:+ "python code" +:+ dq +:+ ", " +:+
      dq +:+ "filename" +:+ dq +:+ ": " +:+ dq +:+ "output.py" +:+ dq +:+ "}";
    "";
    "2. REQUIRED IMPORTS - You MUST start your code with these exact imports:";
    import_block;
    "";
    "3. RULES:";
    "   - Use ONLY the functions provided below";
    "   - Do NOT invent new functions";
    "   - Do NOT use markdown fences in the code field";
    "   - Output raw Python code only" ] in
  let user_msg := join nl [
    "USER REQUEST: " +:+ user_request;
    "";
    "AVAILABLE FUNCTIONS:";
    context;
    "";
    "Generate the glue code as JSON (remember to include the imports):" ] in
  "<|im_start|>system" +:+ nl +:+ system_msg +:+ "<|im_end|>" +:+ nl +:+
  "<|im_start|>user" +:+ nl +:+ user_msg +:+ "<|im_end|>" +:+ nl +:+
  "<|im_start|>assistant" +:+ nl.

Definition _mock_response : AssemblyResult :=
  {| reasoning := "MOCK MODE: Model not available or no chunks provided.";
     code := "def main():" +:+ nl +:+
             "    print('This is generated glue code stub.')" +:+ nl +:+
             "    # Invoking chunks would go here";
     out_filename := "generated_script.py" |}.

Definition parse_error (e : string) : AssemblyResult :=
  {| reasoning := "Parse error: " +:+ e;
     code := "# Failed to parse model output" +:+ nl +:+ "pass";
     out_filename := "generated_script.py" |}.

Section Model.
(** The collaborators:
    - [model_loaded]: whether [self.model is not None];
    - [generate]: the model ([None]: it raised);
    - [find_json]: the two [re.search] attempts and [json.loads]
      ([inl e]: an exception with message [e]);
    - [schema_error]: the message of the exception that [_clean_code] or
      the [CompilerOutput] constructor raises on an object that does not
      fit the schema. *)
Variable model_loaded : bool.
Variable generate : string → option string.
Variable find_json : string → string + ModelData.
Variable schema_error : ModelData → string.

Definition _parse_response (response : string) : AssemblyResult :=
  match find_json response with
  | inl e => parse_error e
  | inr data =>
      match data_code data with
      | JOther => parse_error (schema_error data)
      | field =>
          let code := _clean_code (match field with JString s => s | _ => "" end) in
          match data_reasoning data, data_filename data with
          | Some r, Some f => {| reasoning := r; code := code; out_filename := f |}
          | _, _ => parse_error (schema_error data)
          end
      end
  end.

(** [retrieved_chunks] is a list of strings (the old format) or of chunks. *)
Definition generate_glue_code (retrieved_chunks : list string + list Chunk)
    (user_request : string) : AssemblyResult :=
  let chunks :=
    match retrieved_chunks with
    | inl (c0 :: _ as l) =>
        (λ c, {| source := Some c; filename := Some "unknown";
                 func_name := Some "unknown"; signature := None |}) <$> l
    | inl [] => []
    | inr l => l
    end in
  match model_loaded, chunks with
  | true, _ :: _ =>
      let prompt := _build_prompt chunks user_request in
      match generate prompt with
      | Some response => _parse_response response
      | None => _mock_response
      end
  | _, _ => _mock_response
  end.

End Model.

End AssemblerPy.


(** ** The interactive tool ([src/main.py]) and the loading of the index *)

Module MainPy.
Import PyStr.

(** [IntersectionEngine._load_index]: [file] is what [json.load] reads
    from the index file, [None] when the file does not exist. *)
Definition _load_index (file : option (list (string * IndexValue))) : list (string * IndexValue) :=
  match file with
  | Some index => index
  | None => []
  end.

Section Model.
Variable model_loaded : bool.
Variable generate : string → option string.
Variable find_json : string → string + Bridge.ModelData.
Variable schema_error : Bridge.ModelData → string.

(** One turn of the loop for a query that is asked: retrieval, then
    assembly; the result is [context_count] and [output_obj]. *)
Definition answer (index : list (string * IndexValue)) (query : string) : nat * AssemblyResult :=
  let results := Retriever.search index query in
  let context_count := match results with Some r => length r | None => 0 end in
  let retrieved_context := match results with Some r => r | None => [] end in
  let output_obj :=
    AssemblerPy.generate_glue_code model_loaded generate find_json schema_error
      (inr retrieved_context) query in
  (context_count, output_obj).

End Model.

End MainPy.

(** ** Syntax trees of the other parameter kinds and of classes

    What tree-sitter's Python grammar produces for the other parameters:
    those that [parse_file] has no branch for, and the annotated [*args]
    and [**kwargs], which are [typed_parameter] nodes whose first child is
    the splat pattern; and what it produces for a class definition. *)

Module IndexerTrees.
Import PyStr Indexer.

Inductive Param :=
| Read (d : ParamDecl)
| TypedDefault (name ty value : string)
| ListSplat (name : string)
| DictSplat (name : string)
| TypedListSplat (name ty : string)
| TypedDictSplat (name ty : string)
| KeywordSeparator
| PositionalSeparator.

(** [*name] and [**name] *)
Definition any_splat (ty stars name : string) : Node :=
  mkNode ty (stars +:+ name) [(None, leaf stars stars); (None, leaf "identifier" name)].

Definition any_param_node (p : Param) : Node :=
  match p with
  | Read d => param_node d
  | TypedDefault n ty v =>
      mkNode "typed_default_parameter" (n +:+ ": " +:+ ty +:+ " = " +:+ v)
        [(Some "name", leaf "identifier" n); (None, leaf ":" ":");
         (Some "type", leaf "type" ty); (None, leaf "=" "=");
         (Some "value", leaf "expression" v)]
  | ListSplat n => any_splat "list_splat_pattern" "*" n
  | DictSplat n => any_splat "dictionary_splat_pattern" "**" n
  | TypedListSplat n ty =>
      mkNode "typed_parameter" ("*" +:+ n +:+ ": " +:+ ty)
        [(None, any_splat "list_splat_pattern" "*" n); (None, leaf ":" ":");
         (Some "type", leaf "type" ty)]
  | TypedDictSplat n ty =>
      mkNode "typed_parameter" ("**" +:+ n +:+ ": " +:+ ty)
        [(None, any_splat "dictionary_splat_pattern" "**" n); (None, leaf ":" ":");
         (Some "type", leaf "type" ty)]
  | KeywordSeparator => leaf "keyword_separator" "*"
  | PositionalSeparator => leaf "positional_separator" "/"
  end.

Fixpoint comma_separated_any (ps : list Param) : list (option string * Node) :=
  match ps with
  | [] => []
  | [p] => [(None, any_param_node p)]
  | p :: ps' => (None, any_param_node p) :: (None, leaf "," ",") :: comma_separated_any ps'
  end.

Definition parameters_node_any (ps : list Param) : Node :=
  mkNode "parameters" ("(" +:+ join ", " (text ∘ any_param_node <$> ps) +:+ ")")
    ([(None, leaf "(" "(")] ++ comma_separated_any ps ++ [(None, leaf ")" ")")]).

(** [def name(ps): pass] *)
Definition function_definition_any (name : string) (ps : list Param) : Node :=
  let pn := parameters_node_any ps in
  mkNode "function_definition" ("def " +:+ name +:+ text pn +:+ ": pass")
    [(None, leaf "def" "def"); (Some "name", leaf "identifier" name);
     (Some "parameters", pn); (None, leaf ":" ":");
     (Some "body", leaf "block" "pass")].


(** What [parse_file] stores for a parameter: the name of a plain, typed
    or default parameter; an annotated [*args] or [**kwargs] with its
    stars; nothing for the other kinds. *)
Definition read_name (p : Param) : option string :=
  match p with
  | Read d => Some (decl_name d)
  | TypedListSplat n _ => Some ("*" +:+ n)
  | TypedDictSplat n _ => Some ("**" +:+ n)
  | TypedDefault _ _ _ | ListSplat _ | DictSplat _
  | KeywordSeparator | PositionalSeparator => None
  end.

Definition read_names (ps : list Param) : list string := omap read_name ps.

End IndexerTrees.

(** * Specification-side definitions *)

Module Spec.
Import PyStr.

(** The salient token set as the specification words it: lowercase the
    query, extract the word-character runs, drop the tokens of length at
    most 3. *)
Definition SalientTokenSet (query : string) : gset string :=
  filter (λ t, 3 < String.length t) (list_to_set (findall isword (lower query)) : gset string).

(** A case-folded token occurs case-insensitively in a text. *)
Definition occurs (t text : string) : Prop := str_in t (lower text) = true.

Definition entry_source (v : IndexValue) : string :=
  match v with
  | Legacy s => s
  | Structured src _ _ => default "" src
  end.

(** Every salient token occurs in the entry's name or in its source. *)
Definition qualifies (S : gset string) (e : string * IndexValue) : Prop :=
  set_Forall (λ t, occurs t e.1 ∨ occurs t (entry_source e.2)) S.

#[global] Instance qualifies_dec S e : Decision (qualifies S e).
Proof. unfold qualifies, occurs. apply _. Defined.

(** The chunk that retrieval makes of an index entry. *)
Definition retrieved (e : string * IndexValue) : Chunk :=
  match e.2 with
  | Legacy s =>
      {| source := Some s; filename := Some "unknown";
         func_name := Some e.1; signature := Some empty_signature |}
  | Structured src fname sig =>
      {| source := Some (default "" src); filename := Some (default "unknown" fname);
         func_name := Some e.1; signature := Some (default empty_signature sig) |}
  end.




(** What running a script does, for the scripts made only of blank lines,
    comment lines and [raise RuntimeError(...)] statements at the left
    margin; [None] for any other script. *)
Inductive Outcome :=
| Completes
| RaisesRuntimeError.

Fixpoint run_lines (lines : list string) : option Outcome :=
  match lines with
  | [] => Some Completes
  | line :: rest =>
      if String.eqb (strip line) "" || startswith (lstrip line) "#" then run_lines rest
      else if startswith line "raise RuntimeError(" then Some RaisesRuntimeError
      else None
  end.

Definition run (code : string) : option Outcome := run_lines (split Bridge.LF code).

(** The argument the specification puts at position [j] of a call, when
    the call starts with the pool pointer at [number_idx]: the previous
    result variable at position 0 if there is one, else the next integer
    of the query, else the literal [10 + j]. *)
Definition expected_arg (result_var : option string) (numbers : list string)
    (number_idx j : nat) : string :=
  match result_var, j with
  | Some r, 0 => r
  | Some _, S j' => default (str (10 + j)) (numbers !! (number_idx + j'))
  | None, _ => default (str (10 + j)) (numbers !! (number_idx + j))
  end.

(** How many integers of the pool a call with [count] parameters takes. *)
Definition pool_taken (result_var : option string) (numbers : list string)
    (number_idx count : nat) : nat :=
  (count - (if result_var is Some _ then 1 else 0)) `min` (length numbers - number_idx).

(** A line that the use-before-define rule reads as an assignment: it
    contains [=], is neither a comment nor a definition line, and contains
    none of [==], [!=], [<=], [>=]. *)
Definition is_assignment (line : string) : bool :=
  str_in "=" line && negb (startswith line "#") && negb (startswith line "def ") &&
  negb (str_in "==" line || str_in "!=" line || str_in "<=" line || str_in ">=" line).

(** The two sides of an assignment line, split at its first [=]. *)
Definition lhs_of (line : string) : string := strip (Bridge.split_once (strip line)).1.
Definition rhs_of (line : string) : string := strip (Bridge.split_once (strip line)).2.

(** Some assignment line mentions a sentinel name on its right-hand side
    that is not in [defined] and is the left-hand side of no assignment
    line before it. *)
Definition uses_before_definition_from (defined : gset string) (lines : list string) : Prop :=
  ∃ i line var,
    lines !! i = Some line ∧ is_assignment (strip line) = true ∧
    var ∈ Bridge.sentinels ∧ str_in var (rhs_of line) = true ∧ (var ∉ defined) ∧
    (∀ i' line', i' < i → lines !! i' = Some line' →
                 is_assignment (strip line') = true → lhs_of line' ≠ var).

Definition uses_before_definition (lines : list string) : Prop :=
  uses_before_definition_from ∅ lines.

(** The model's response yields the code [s]. *)
Definition model_emits (generate re_search_json : string → option string)
    (json_loads : string → option Bridge.ModelData) (prompt s : string) : Prop :=
  ∃ response matched data,
    generate prompt = Some response ∧ re_search_json response = Some matched ∧
    json_loads matched = Some data ∧ Bridge.get_code data = Some s.

(** The completeness rule: keep a code that prints, append a print of the
    result to a code that binds the result without printing, reject the
    others. *)
Definition completeness (code : string) : option string :=
  if Bridge.has_print code then Some code
  else if Bridge.has_result_assignment code
       then Some (rstrip code +:+ Bridge.nl +:+ Bridge.print_result)
       else None.

(** The code prints at least once or raises an explicit error. *)
Definition prints_or_raises (code : string) : bool :=
  str_in "print(" code || str_in "raise " code.

(** The five validator rules, on a code [c]. *)
Record passes_validator (py_compiles : string → bool) (chunks : list Chunk) (c : string) : Prop := {
  rule_imports : str_in (Bridge.import_block_for chunks) c = true;
  rule_function_usage : ∃ fn, Some fn ∈ (func_name <$> chunks) ∧ str_in fn c = true;
  rule_syntax : py_compiles c = true;
  rule_use_before_define : ¬ uses_before_definition (split Bridge.LF c);
  rule_completeness : Bridge.has_print c = true ∨ Bridge.has_result_assignment c = true
}.

(** The chunk has at least one parameter once a leading [self] is skipped. *)
Definition has_params (chunk : Chunk) : bool :=
  negb (Nat.eqb (length (Bridge.chunk_params chunk)) 0).

(** Grounding of what the constrained assembler returns: the deterministic
    assembler's result when the model is unavailable or fails; otherwise
    that result again, or a code that passed the five validator rules,
    returned as it is or, when it binds the result without printing, with
    its trailing white space removed and a print of the result appended. *)
Definition grounded (model_loaded : bool) (generate re_search_json : string → option string)
    (json_loads : string → option Bridge.ModelData) (py_compiles : string → bool)
    (chunks : list Chunk) (query : string) (error_context : option string) : Prop :=
  let r := Bridge.generate_glue_code model_loaded generate re_search_json json_loads
             py_compiles chunks query error_context in
  let det := Bridge.build_deterministic_code chunks query in
  (model_loaded = false → r = det)
  ∧ (generate (Bridge.prompt_for chunks query error_context) = None → r = det)
  ∧ (r = det
     ∨ ∃ c, passes_validator py_compiles chunks c
            ∧ code r = (if Bridge.has_print c then c
                        else rstrip c +:+ Bridge.nl +:+ Bridge.print_result)
            ∧ Bridge.has_print (code r) = true).

End Spec.

(** ** The retriever's specification on Unicode text *)

Module TextSpec.
Import TextRetriever.

Section Tables.
Variable isword : N → bool.
Variable lower : list N → list N.

(** The salient token set as the specification words it: lowercase the
    query, extract the word-character runs, drop the tokens of length at
    most 3. *)
Definition SalientTokenSet (query : list N) : gset (list N) :=
  filter (λ t, 3 < length t) (list_to_set (findall isword (lower query)) : gset (list N)).

(** The other order: extract the word-character runs of the query, drop
    those of length at most 3, lowercase each of the others. *)
Definition folded_tokens (query : list N) : gset (list N) :=
  list_to_set (lower <$> filter (λ t, 3 < length t) (findall isword query)).

(** A case-folded token occurs case-insensitively in a text. *)
Definition occurs (t text : list N) : Prop := str_in t (lower text) = true.

Definition entry_source (v : UIndexValue) : list N :=
  match v with
  | ULegacy s => s
  | UStructured src _ _ => default [] src
  end.

(** Every token of [S] occurs in the entry's name or in its source. *)
Definition qualifies (S : gset (list N)) (e : list N * UIndexValue) : Prop :=
  set_Forall (λ t, occurs t e.1 ∨ occurs t (entry_source e.2)) S.

#[global] Instance text_qualifies_dec S e : Decision (qualifies S e).
Proof. unfold qualifies, occurs. apply _. Defined.

(** The query has a token and every token occurs in [name] or in [s]. *)
Definition found (query name s : list N) : Prop :=
  folded_tokens query ≠ ∅
  ∧ set_Forall (λ t, occurs t name ∨ occurs t s) (folded_tokens query).

#[global] Instance found_dec query name s : Decision (found query name s).
Proof. unfold found, occurs. apply _. Defined.

End Tables.

(** The chunk that retrieval makes of an index entry. *)
Definition retrieved (e : list N * UIndexValue) : UChunk :=
  match e.2 with
  | ULegacy s =>
      {| u_source := Some s; u_filename := Some (cps "unknown");
         u_func_name := Some e.1; u_signature := Some u_empty_signature |}
  | UStructured src fname sig =>
      {| u_source := Some (default [] src); u_filename := Some (default (cps "unknown") fname);
         u_func_name := Some e.1; u_signature := Some (default u_empty_signature sig) |}
  end.

(** The legacy form of an index entry, and what it loses of a chunk. *)
Definition to_legacy (e : list N * UIndexValue) : list N * UIndexValue :=
  (e.1, ULegacy (entry_source e.2)).

Definition forget (c : UChunk) : UChunk :=
  {| u_source := u_source c; u_filename := Some (cps "unknown");
     u_func_name := u_func_name c; u_signature := Some u_empty_signature |}.

End TextSpec.

(** ** Further specification-side definitions *)

Module SpecExtra.
Import PyStr.

(** [d.keys()] *)
Definition keys {V} (d : list (string * V)) : list string := fst <$> d.

(** A run of assignments [d[k] = v], in order. *)
Definition apply_all {V} (us : list (string * V)) (d : list (string * V)) : list (string * V) :=
  foldl (λ d u, Indexer.dict_set u.1 u.2 d) d us.

(** What a captured node brings to the index: the name it defines, its
    source text and its signature. *)
Definition node_entry (capture_name : string) (node : Indexer.Node)
    : option (string * (string * Signature)) :=
  if String.eqb capture_name "function" || String.eqb capture_name "class" then
    match Indexer.child_by_field_name node "name" with
    | Some name_node =>
        Some (Indexer.text name_node, (Indexer.text node, Indexer.extract_signature node))
    | None => None
    end
  else None.

(** The definitions of a file, in the order [parse_file] visits them. *)
Definition entries (captures : list (string * list Indexer.Node))
    : list (string * (string * Signature)) :=
  concat ((λ capture : string * list Indexer.Node,
             omap (node_entry capture.1) capture.2) <$> captures).

(** The last definition of [name] among [es]. *)
Definition last_definition (name : string) (es : list (string * (string * Signature)))
    : option (string * Signature) :=
  snd <$> last (filter (λ e, e.1 = name) es).

(** The index value stored for a definition of the file [file]. *)
Definition stored (file : string) (e : string * Signature) : IndexValue :=
  Structured (Some e.1) (Some file) (Some e.2).

(** The assignments that the definitions [es] of the file [file] make to
    the index, and to the dictionary that [parse_file] returns. *)
Definition index_updates (file : string) (es : list (string * (string * Signature)))
    : list (string * IndexValue) :=
  (λ e, (e.1, stored file e.2)) <$> es.

Definition source_updates (es : list (string * (string * Signature)))
    : list (string * string) :=
  (λ e : string * (string * Signature), (e.1, e.2.1)) <$> es.

(** The integers that the calls for [chunks] ask of the pool: one for each
    parameter, a leading [self] apart, except the first parameter of a
    call made when a result is bound ([bound]: one is bound already). *)
Fixpoint pool_demand (bound : bool) (chunks : list Chunk) : nat :=
  match chunks with
  | [] => 0
  | chunk :: rest =>
      (length (Bridge.chunk_params chunk) - (if bound then 1 else 0)) +
      pool_demand (bound || Spec.has_params chunk) rest
  end.

(** The two lines of the script for [chunk], the chunks [before] it
    already called: the numbered comment and the call. *)
Definition call_lines (numbers : list string) (before : list Chunk) (chunk : Chunk)
    : list string :=
  let n := length (Bridge.chunk_params chunk) in
  let name := Bridge.chunk_func_name chunk in
  let result_var := if existsb Spec.has_params before then Some "result" else None in
  let number_idx := length numbers `min` pool_demand false before in
  let args := Spec.expected_arg result_var numbers number_idx <$> seq 0 n in
  ["# Step " +:+ str (length before + 1) +:+ ": Call " +:+ name +:+
     " (" +:+ str n +:+ " params)";
   if Nat.eqb n 0 then name +:+ "()"
   else "result = " +:+ name +:+ "(" +:+ join ", " args +:+ ")"].

Definition script_calls (numbers : list string) (chunks : list Chunk) : list string :=
  concat (imap (λ k chunk, call_lines numbers (take k chunks) chunk) chunks).

(** The key under which a chunk is imported: its file and its name. *)
Definition import_key (chunk : Chunk) : string * string :=
  (Bridge.chunk_filename chunk, Bridge.chunk_func_name chunk).

(** Merging two retrieval results. *)
Definition merge_results (a b : option (list Chunk)) : option (list Chunk) :=
  match a, b with
  | Some x, Some y => Some (x ++ y)
  | Some x, None => Some x
  | None, Some y => Some y
  | None, None => None
  end.

End SpecExtra.

(** * Properties *)

(** ** Facts about the string primitives *)

Module PyStrFacts.
Import PyStr.

Lemma isword_lower_char c : isword (lower_char c) = isword c.
Proof. destruct c as [[] [] [] [] [] [] [] []]; reflexivity. Qed.

Lemma lower_app s1 s2 : lower (s1 +:+ s2) = lower s1 +:+ lower s2.
Proof. induction s1 as [|c s1 IH]; simpl; [done|]. by rewrite IH. Qed.

Lemma length_lower s : String.length (lower s) = String.length s.
Proof. induction s as [|c s IH]; simpl; congruence. Qed.

Lemma flush_lower cur : flush (lower cur) = lower <$> flush cur.
Proof. by destruct cur. Qed.

Lemma findall_go_lower cur s :
  findall_go isword (lower cur) (lower s) = lower <$> findall_go isword cur s.
Proof.
  revert cur. induction s as [|c s IH]; intros cur; simpl.
  - apply flush_lower.
  - rewrite isword_lower_char. destruct (isword c).
    + rewrite <- IH, lower_app. done.
    + rewrite fmap_app, <- flush_lower. f_equal. apply (IH "").
Qed.

Lemma findall_lower s : findall isword (lower s) = lower <$> findall isword s.
Proof. apply (findall_go_lower ""). Qed.

Lemma startswith_app_l s p t : startswith s p = true → startswith (s +:+ t) p = true.
Proof.
  revert s. induction p as [|a p IH]; intros [|b s]; simpl; try done.
  intros [-> H]%andb_true_iff. by rewrite (IH _ H).
Qed.

Lemma startswith_refl s : startswith s s = true.
Proof. induction s as [|a s IH]; simpl; [done|]. by rewrite Ascii.eqb_refl. Qed.

Lemma str_in_app_l sub a b : str_in sub a = true → str_in sub (a +:+ b) = true.
Proof.
  induction a as [|c a IH]; simpl.
  - rewrite orb_false_r. destruct sub; [|done]. intros _. by destruct b.
  - intros [H|H]%orb_true_iff.
    + change (String c (a +:+ b)) with (String c a +:+ b).
      by rewrite (startswith_app_l _ _ _ H).
    + rewrite (IH H). apply orb_true_r.
Qed.

Lemma str_in_app_r sub a b : str_in sub b = true → str_in sub (a +:+ b) = true.
Proof.
  intros H. induction a as [|c a IH]; [done|].
  simpl. rewrite IH. apply orb_true_r.
Qed.

Lemma str_in_refl s : str_in s s = true.
Proof. destruct s; simpl; [done|]. by rewrite Ascii.eqb_refl, startswith_refl. Qed.

Lemma app_cons c a b : String c a +:+ b = String c (a +:+ b).
Proof. reflexivity. Qed.

Lemma app_assoc_str a b c : (a +:+ b) +:+ c = a +:+ (b +:+ c).
Proof. induction a as [|x a IH]; [done|]. by rewrite !app_cons, IH. Qed.

(** A joined list ends with its last element. *)
Lemma join_snoc sep xs y : ∃ pre, join sep (xs ++ [y]) = pre +:+ y.
Proof.
  induction xs as [|x xs [pre IH]].
  - by exists "".
  - exists (x +:+ sep +:+ pre).
    change (join sep ((x :: xs) ++ [y])) with (join sep (x :: (xs ++ [y]))).
    destruct (xs ++ [y]) as [|z l] eqn:E.
    + by destruct xs.
    + change (join sep (x :: z :: l)) with (x +:+ sep +:+ join sep (z :: l)).
      rewrite IH, !app_assoc_str. done.
Qed.

End PyStrFacts.

(** ** The retriever *)

Module RetrieverFacts.
Import PyStr PyStrFacts Retriever Spec.

Lemma elem_of_target_tokens t query :
  t ∈ target_tokens query ↔ t ∈ findall isword query ∧ 3 < String.length t.
Proof.
  unfold target_tokens, tokens.
  rewrite list_elem_of_filter, elem_of_elements, elem_of_list_to_set. tauto.
Qed.

Lemma elem_of_SalientTokenSet t query :
  t ∈ SalientTokenSet query ↔
  ∃ u, t = lower u ∧ u ∈ findall isword query ∧ 3 < String.length u.
Proof.
  unfold SalientTokenSet.
  rewrite elem_of_filter, elem_of_list_to_set, findall_lower, list_elem_of_fmap.
  split.
  - intros [Hlen (u & -> & Hu)]. exists u. rewrite length_lower in Hlen. done.
  - intros (u & -> & Hu & Hlen). rewrite length_lower. eauto.
Qed.

Lemma target_tokens_nil query : target_tokens query = [] ↔ SalientTokenSet query = ∅.
Proof.
  split.
  - intros Hnil. apply set_eq. intros t. rewrite elem_of_SalientTokenSet.
    split; [|set_solver].
    intros (u & _ & Hu & Hlen).
    assert (u ∈ target_tokens query) as Hin by by apply elem_of_target_tokens.
    rewrite Hnil in Hin. by apply elem_of_nil in Hin.
  - intros Hempty. destruct (target_tokens query) as [|u l] eqn:E; [done|].
    assert (u ∈ target_tokens query) as Hin by (rewrite E; left).
    apply elem_of_target_tokens in Hin as [Hu Hlen].
    assert (lower u ∈ SalientTokenSet query) as Hs
      by (apply elem_of_SalientTokenSet; eauto).
    rewrite Hempty in Hs. set_solver.
Qed.

Lemma matches_all_true target sl fl :
  matches_all target sl fl = true ↔
  ∀ t, t ∈ target → str_in (lower t) sl = true ∨ str_in (lower t) fl = true.
Proof.
  induction target as [|t target IH]; simpl.
  - split; [|done]. intros _ t Ht. by apply elem_of_nil in Ht.
  - destruct (str_in (lower t) sl) eqn:Es; simpl.
    + rewrite IH. split.
      * intros H u [->|Hu]%elem_of_cons; [by left|by apply H].
      * intros H u Hu. apply H. by right.
    + destruct (str_in (lower t) fl) eqn:Ef; simpl.
      * rewrite IH. split.
        -- intros H u [->|Hu]%elem_of_cons; [by right|by apply H].
        -- intros H u Hu. apply H. by right.
      * split; [done|]. intros H.
        destruct (H t) as [?|?]; [by left|congruence..].
Qed.

Lemma entry_fields_source v : (entry_fields v).1.1 = entry_source v.
Proof. by destruct v. Qed.

Lemma matches_all_qualifies query e :
  matches_all (target_tokens query) (lower (entry_source e.2)) (lower e.1) = true ↔
  qualifies (SalientTokenSet query) e.
Proof.
  rewrite matches_all_true. unfold qualifies, set_Forall, occurs. split.
  - intros H t (u & -> & Hu & Hlen)%elem_of_SalientTokenSet.
    destruct (H u) as [?|?]; [by apply elem_of_target_tokens|by right|by left].
  - intros H u [Hu Hlen]%elem_of_target_tokens.
    destruct (H (lower u)) as [?|?];
      [apply elem_of_SalientTokenSet; by eauto|by right|by left].
Qed.

Lemma search_loop_filter query index :
  search_loop (target_tokens query) index =
  retrieved <$> filter (qualifies (SalientTokenSet query)) index.
Proof.
  induction index as [|[name v] index IH]; [done|].
  rewrite filter_cons. cbn [search_loop].
  pose proof (matches_all_qualifies query (name, v)) as Hq. cbn [fst snd] in Hq.
  destruct v as [s|src fname sig]; cbn [entry_fields entry_source] in *.
  - destruct (matches_all _ _ _).
    + rewrite decide_True by by apply Hq. rewrite fmap_cons, IH. done.
    + rewrite decide_False; [done|]. intros H. apply Hq in H. done.
  - destruct (matches_all _ _ _).
    + rewrite decide_True by by apply Hq. rewrite fmap_cons, IH. done.
    + rewrite decide_False; [done|]. intros H. apply Hq in H. done.
Qed.

End RetrieverFacts.

(** ** The retriever on Unicode text *)

Module TextRetrieverFacts.
Import TextRetriever TextSpec.

Section Tables.
Variable isword : N → bool.
Variable lower : list N → list N.

Lemma text_elem_of_target_tokens t query :
  t ∈ target_tokens isword query ↔ t ∈ findall isword query ∧ 3 < length t.
Proof.
  unfold target_tokens, tokens.
  rewrite list_elem_of_filter, elem_of_elements, elem_of_list_to_set. tauto.
Qed.

Lemma text_elem_of_folded_tokens t query :
  t ∈ folded_tokens isword lower query ↔
  ∃ u, t = lower u ∧ u ∈ findall isword query ∧ 3 < length u.
Proof.
  unfold folded_tokens. rewrite elem_of_list_to_set, list_elem_of_fmap.
  split; intros (u & -> & Hu); exists u; (split; [done|]).
  - apply list_elem_of_filter in Hu. tauto.
  - apply list_elem_of_filter. tauto.
Qed.

Lemma text_target_tokens_nil query :
  target_tokens isword query = [] ↔ folded_tokens isword lower query = ∅.
Proof.
  split.
  - intros Hnil. apply set_eq. intros t. rewrite text_elem_of_folded_tokens.
    split; [|by intros ?%not_elem_of_empty].
    intros (u & _ & Hu & Hlen).
    assert (u ∈ target_tokens isword query) as Hin by by apply text_elem_of_target_tokens.
    rewrite Hnil in Hin. by apply elem_of_nil in Hin.
  - intros Hempty. destruct (target_tokens isword query) as [|u l] eqn:E; [done|].
    assert (u ∈ target_tokens isword query) as Hin by (rewrite E; left).
    apply text_elem_of_target_tokens in Hin as [Hu Hlen].
    assert (lower u ∈ folded_tokens isword lower query) as Hs
      by (apply text_elem_of_folded_tokens; eauto).
    rewrite Hempty in Hs. by apply not_elem_of_empty in Hs.
Qed.

Lemma text_matches_all_true target sl fl :
  matches_all lower target sl fl = true ↔
  ∀ t, t ∈ target → str_in (lower t) sl = true ∨ str_in (lower t) fl = true.
Proof.
  induction target as [|t target IH]; cbn [matches_all].
  - split; [|done]. intros _ t Ht. by apply elem_of_nil in Ht.
  - destruct (str_in (lower t) sl) eqn:Es; cbn [negb andb].
    + rewrite IH. split.
      * intros H u [->|Hu]%elem_of_cons; [by left|by apply H].
      * intros H u Hu. apply H. by right.
    + destruct (str_in (lower t) fl) eqn:Ef; cbn [negb].
      * rewrite IH. split.
        -- intros H u [->|Hu]%elem_of_cons; [by right|by apply H].
        -- intros H u Hu. apply H. by right.
      * split; [done|]. intros H.
        destruct (H t) as [?|?]; [by left|congruence..].
Qed.

Lemma text_matches_all_qualifies query e :
  matches_all lower (target_tokens isword query) (lower (entry_source e.2)) (lower e.1) = true ↔
  qualifies lower (folded_tokens isword lower query) e.
Proof.
  rewrite text_matches_all_true. unfold qualifies, set_Forall, occurs. split.
  - intros H t (u & -> & Hu & Hlen)%text_elem_of_folded_tokens.
    destruct (H u) as [?|?]; [by apply text_elem_of_target_tokens|by right|by left].
  - intros H u [Hu Hlen]%text_elem_of_target_tokens.
    destruct (H (lower u)) as [?|?];
      [apply text_elem_of_folded_tokens; by eauto|by right|by left].
Qed.

Lemma text_search_loop_filter query index :
  search_loop lower (target_tokens isword query) index =
  retrieved <$> filter (qualifies lower (folded_tokens isword lower query)) index.
Proof.
  induction index as [|[name v] index IH]; [done|].
  rewrite filter_cons. cbn [search_loop].
  pose proof (text_matches_all_qualifies query (name, v)) as Hq. cbn [fst snd] in Hq.
  destruct v as [s|src fname sig]; cbn [entry_fields entry_source] in *;
    destruct (matches_all _ _ _ _);
    (rewrite decide_True by (by apply Hq); rewrite fmap_cons, IH; done) ||
    (rewrite decide_False; [done|]; intros Hyes; apply Hq in Hyes; done).
Qed.

Lemma text_search_filter index query :
  search isword lower index query =
  if decide (folded_tokens isword lower query = ∅) then None
  else match retrieved <$> filter (qualifies lower (folded_tokens isword lower query)) index with
       | [] => None
       | results => Some results
       end.
Proof.
  unfold search. destruct (target_tokens isword query) as [|t l] eqn:E.
  - rewrite decide_True; [done|]. by apply text_target_tokens_nil.
  - rewrite decide_False.
    2:{ intros Hempty%text_target_tokens_nil. congruence. }
    by rewrite <- E, text_search_loop_filter.
Qed.

Lemma text_search_loop_to_legacy target (index : list (list N * UIndexValue)) :
  search_loop lower target (to_legacy <$> index) = forget <$> search_loop lower target index.
Proof.
  induction index as [|[name v] index IH]; [done|].
  rewrite fmap_cons. unfold to_legacy at 1. cbn [fst snd search_loop].
  destruct v as [s|src fname sig]; cbn [entry_fields entry_source];
    destruct (matches_all _ _ _ _); rewrite ?fmap_cons, IH; done.
Qed.

Lemma text_search_singleton e query :
  search isword lower [e] query =
  if decide (found isword lower query e.1 (entry_source e.2)) then Some [retrieved e] else None.
Proof.
  rewrite text_search_filter, filter_cons, filter_nil. unfold found.
  destruct (decide (folded_tokens isword lower query = ∅)) as [Hempty|Hne].
  - rewrite decide_False; [done|]. intros [Hne _]. done.
  - destruct (decide (qualifies lower (folded_tokens isword lower query) e)) as [Hq|Hq].
    + rewrite decide_True; done.
    + rewrite decide_False; [done|]. intros [_ Hall]. done.
Qed.

(** C1 (amended). For every index and query, whatever Python's tables for
    [\w] and [str.lower] are: the salient tokens of [search] are the word
    runs of the query, those of length at most 3 dropped, each one
    lower-cased when it is matched; [search] returns null when there is no
    such token or no entry qualifies, and otherwise exactly the chunks of
    the entries in which every salient token occurs in the lower-cased
    name or source, in index order; an entry it rejects does not contain
    them all.  Whenever lower-casing the query commutes with splitting it
    into word runs and keeps the length of each run, these tokens are the
    ones obtained by lower-casing the query first. *)
Theorem search_strict_on_folded_tokens (index : list (list N * UIndexValue)) (query : list N) :
  let S := folded_tokens isword lower query in
  let accepted := filter (qualifies lower S) index in
  search isword lower index query =
    (if decide (S = ∅) then None
     else if decide (accepted = []) then None
     else Some (retrieved <$> accepted))
  ∧ (∀ e, e ∈ index → (e ∈ accepted ↔ qualifies lower S e))
  ∧ (∀ results c, search isword lower index query = Some results → c ∈ results →
       ∀ t, t ∈ S → occurs lower t (default [] (u_func_name c))
                    ∨ occurs lower t (default [] (u_source c)))
  ∧ (findall isword (lower query) = lower <$> findall isword query →
     Forall (λ t, length (lower t) = length t) (findall isword query) →
     S = SalientTokenSet isword lower query).
Proof.
  intros S accepted.
  assert (search isword lower index query =
            (if decide (S = ∅) then None
             else if decide (accepted = []) then None
             else Some (retrieved <$> accepted))) as Hsearch.
  { rewrite text_search_filter. fold S accepted. case_decide; [done|].
    destruct accepted; [by rewrite decide_True|by rewrite decide_False]. }
  split; [done|]. split; [|split].
  - intros e He. unfold accepted. rewrite list_elem_of_filter. tauto.
  - intros results c Hres Hc. rewrite Hsearch in Hres.
    repeat case_decide; try done. injection Hres as <-.
    apply list_elem_of_fmap in Hc as (e & -> & [Hq _]%list_elem_of_filter).
    intros t Ht. specialize (Hq t Ht). by destruct e as [name []].
  - intros Hcomm Hlen. rewrite Forall_forall in Hlen.
    apply set_eq. intros t. unfold S. rewrite text_elem_of_folded_tokens.
    unfold SalientTokenSet. rewrite elem_of_filter, elem_of_list_to_set, Hcomm,
      list_elem_of_fmap.
    split.
    + intros (u & -> & Hu & Hl). rewrite Hlen by done. eauto.
    + intros [Hl (u & -> & Hu)]. rewrite Hlen in Hl by done. eauto.
Qed.

(** X8. Retrieval depends on the query only through the lower-cased forms
    of its word runs longer than 3 characters: two queries with the same
    set of them retrieve the same chunks. *)
Theorem search_depends_on_folded_tokens (index : list (list N * UIndexValue))
    (query1 query2 : list N) :
  folded_tokens isword lower query1 = folded_tokens isword lower query2 →
  search isword lower index query1 = search isword lower index query2.
Proof. intros Heq. by rewrite !text_search_filter, Heq. Qed.

(** C9. An index entry loaded in the legacy form (a bare source string)
    is retrieved for exactly the queries that retrieve its structured
    form, those with a token all of whose tokens occur in the name or the
    source; the chunk it yields has the same source and the same function
    name as the structured one, and differs from it in two fields only:
    the file name is [unknown] and the signature is empty (no parameter,
    no return annotation).  For a whole index, retrieval from the legacy
    forms of its entries returns the chunks of the index with these two
    fields reset. *)
Theorem legacy_entry_loses_two_fields (index : list (list N * UIndexValue))
    (name s : list N) (f : option (list N)) (sig : option USignature) (query : list N) :
  search isword lower [(name, ULegacy s)] query =
    (if decide (found isword lower query name s)
     then Some [{| u_source := Some s; u_filename := Some (cps "unknown");
                   u_func_name := Some name;
                   u_signature := Some {| u_params := Some []; u_returns := None |} |}]
     else None)
  ∧ search isword lower [(name, UStructured (Some s) f sig)] query =
    (if decide (found isword lower query name s)
     then Some [{| u_source := Some s; u_filename := Some (default (cps "unknown") f);
                   u_func_name := Some name;
                   u_signature :=
                     Some (default {| u_params := Some []; u_returns := None |} sig) |}]
     else None)
  ∧ search isword lower (to_legacy <$> index) query =
    (λ chunks : list UChunk, forget <$> chunks) <$> search isword lower index query.
Proof.
  split; [|split].
  - apply (text_search_singleton (name, ULegacy s)).
  - apply (text_search_singleton (name, UStructured (Some s) f sig)).
  - unfold search. destruct (target_tokens isword query) as [|t l]; [done|].
    rewrite text_search_loop_to_legacy.
    by destruct (search_loop lower (t :: l) index).
Qed.

End Tables.

(** C1 (as stated, refuted). With the query [İSTANBUL] (the first letter is
    U+0130) and an index holding [stanbul_fn]: the code keeps the whole
    word as its token, lower-cases it to [i], U+0307, [stanbul], finds it
    nowhere and returns null; lower-casing the query first gives the word
    runs [i] and [stanbul], hence the salient set of the specification is
    [stanbul] alone, which the entry contains. *)
Lemma folding_before_splitting_differs :
  let query := 304%N :: cps "STANBUL" in
  let entry := (cps "stanbul_fn", ULegacy (cps "def stanbul_fn(): pass")) in
  search isword_example lower_example [entry] query = None
  ∧ SalientTokenSet isword_example lower_example query = {[ cps "stanbul" ]}
  ∧ qualifies lower_example (SalientTokenSet isword_example lower_example query) entry
  ∧ folded_tokens isword_example lower_example query =
      {[ cps "i" ++ [775%N] ++ cps "stanbul" ]}.
Proof.
  cbn zeta. split; [vm_compute; reflexivity|].
  assert (SalientTokenSet isword_example lower_example (304%N :: cps "STANBUL") =
          {[ cps "stanbul" ]}) as Hs by (vm_compute; reflexivity).
  split; [exact Hs|]. split; [|vm_compute; reflexivity].
  rewrite Hs. intros t ->%elem_of_singleton. right. vm_compute. reflexivity.
Qed.

Lemma search_depends_on_folded_tokens_witness :
  folded_tokens isword_example lower_example (cps "Create USER, create!") =
    folded_tokens isword_example lower_example (cps "user create")
  ∧ search isword_example lower_example
      [(cps "create_user", ULegacy (cps "def create_user(name): pass"))]
      (cps "Create USER, create!") =
    search isword_example lower_example
      [(cps "create_user", ULegacy (cps "def create_user(name): pass"))]
      (cps "user create").
Proof.
  assert (folded_tokens isword_example lower_example (cps "Create USER, create!") =
          folded_tokens isword_example lower_example (cps "user create")) as H
    by (vm_compute; reflexivity).
  split; [exact H|]. exact (search_depends_on_folded_tokens _ _ _ _ _ H).
Defined.

End TextRetrieverFacts.

(** ** The indexer *)

Module IndexerFacts.
Import PyStr Indexer Spec.

Lemma dict_get_set {V} k (v : V) d : dict_get k (dict_set k v d) = Some v.
Proof.
  induction d as [|[k' v'] d IH]; simpl.
  - by rewrite String.eqb_refl.
  - destruct (String.eqb k' k) eqn:E; simpl; rewrite E; done.
Qed.

Lemma collect_params_app cs1 cs2 acc :
  collect_params (cs1 ++ cs2) acc = collect_params cs2 (collect_params cs1 acc).
Proof.
  revert acc. induction cs1 as [|c cs1 IH]; intros acc; [done|].
  cbn [app collect_params].
  repeat case_match; apply IH.
Qed.

Lemma collect_params_comma acc : collect_params [leaf "," ","] acc = acc.
Proof. done. Qed.





(** C4 (the code at the failing input). [parse_file] computes the SHA-256
    of each chunk's source and drops it: the index it builds is the same
    whatever the hash function, and the entry stored for [def foo(): pass]
    holds the source, the file name and the signature only. *)
Theorem chunk_id_not_stored (sha256 sha256' : string → string) (file : string)
    (captures : list (string * list Node)) (index0 : list (string * IndexValue)) :
  parse_file sha256 file captures index0 = parse_file sha256' file captures index0
  ∧ index (parse_file sha256 "utils" [("function", [function_definition "foo" []])] []) =
      [("foo", Structured (Some "def foo(): pass") (Some "utils")
                 (Some {| params := Some []; returns := None |}))].
Proof. split; reflexivity. Qed.

End IndexerFacts.

(** ** The deterministic assembler *)

Module DeterministicFacts.
Import PyStr PyStrFacts Bridge Spec.

Lemma build_args_step rv numbers j todo idx :
  rv = None ∨ 0 < j →
  build_args rv numbers j (S todo) idx =
  match numbers !! idx with
  | Some n =>
      let '(args, idx') := build_args rv numbers (S j) todo (idx + 1) in (n :: args, idx')
  | None =>
      let '(args, idx') := build_args rv numbers (S j) todo idx in
      (str (10 + j) :: args, idx')
  end.
Proof. intros [->|Hj]; [done|]. destruct rv, j; done || lia. Qed.

Lemma build_args_pool rv numbers j todo idx :
  rv = None ∨ 0 < j →
  build_args rv numbers j todo idx =
  ((λ k, default (str (10 + (j + k))) (numbers !! (idx + k))) <$> seq 0 todo,
   idx + todo `min` (length numbers - idx)).
Proof.
  revert j idx. induction todo as [|todo IH]; intros j idx Hpool.
  - cbn. f_equal. lia.
  - rewrite build_args_step by done.
    cbn [seq]. rewrite fmap_cons, <- fmap_S_seq, <- list_fmap_compose, !Nat.add_0_r.
    destruct (numbers !! idx) as [n|] eqn:En.
    + assert (idx < length numbers) by by eapply lookup_lt_Some.
      rewrite (IH (S j) (idx + 1)) by (right; lia). cbn [default]. f_equal.
      * f_equal. apply list_fmap_ext. intros _ k _. cbn.
        by replace (idx + 1 + k) with (idx + S k) by lia;
           replace (j + S k) with (S (j + k)) by lia.
      * lia.
    + assert (length numbers ≤ idx) by by eapply lookup_ge_None.
      rewrite (IH (S j) idx) by (right; lia). cbn [default]. f_equal.
      * f_equal. apply list_fmap_ext. intros _ k _. cbn.
        rewrite !(lookup_ge_None_2 numbers) by lia.
        by replace (j + S k) with (S (j + k)) by lia.
      * lia.
Qed.

Lemma build_args_spec rv numbers count idx :
  build_args rv numbers 0 count idx =
  (expected_arg rv numbers idx <$> seq 0 count, idx + pool_taken rv numbers idx count).
Proof.
  unfold pool_taken. destruct rv as [r|].
  - destruct count as [|count]; [cbn; f_equal; lia|].
    cbn [build_args]. rewrite build_args_pool by (right; lia).
    cbn [seq fmap list_fmap expected_arg]. f_equal.
    + f_equal. rewrite <- fmap_S_seq, <- list_fmap_compose. done.
    + f_equal. f_equal. lia.
  - rewrite build_args_pool by by left.
    f_equal. f_equal. lia.
Qed.

Lemma build_calls_cons numbers i number_idx result_var func rest :
  build_calls numbers i number_idx result_var (func :: rest) =
  let count := param_count func in
  let args := expected_arg result_var numbers number_idx <$> seq 0 count in
  let comment := "# Step " +:+ str (i + 1) +:+ ": Call " +:+ name func +:+
                 " (" +:+ str count +:+ " params)" in
  let call := if Nat.eqb count 0 then name func +:+ "()"
              else "result = " +:+ name func +:+ "(" +:+ join ", " args +:+ ")" in
  let later := build_calls numbers (S i)
                 (number_idx + pool_taken result_var numbers number_idx count)
                 (if Nat.eqb count 0 then result_var else Some "result") rest in
  (comment :: call :: later.1, later.2).
Proof.
  cbn [build_calls]. rewrite build_args_spec. cbn zeta.
  destruct (param_count func); cbn [Nat.eqb];
    by destruct (build_calls _ _ _ _ rest).
Qed.

Lemma build_calls_result_var numbers i number_idx result_var infos :
  (build_calls numbers i number_idx result_var infos).2 =
  if existsb (λ f, negb (Nat.eqb (param_count f) 0)) infos then Some "result"
  else result_var.
Proof.
  revert i number_idx result_var.
  induction infos as [|func rest IH]; intros i number_idx result_var; [done|].
  rewrite build_calls_cons. cbn [snd existsb]. rewrite IH.
  destruct (Nat.eqb (param_count func) 0); cbn [negb orb]; [done|].
  by destruct (existsb _ rest).
Qed.

Lemma existsb_function_info chunks :
  existsb (λ f, negb (Nat.eqb (param_count f) 0)) (function_info chunks) =
  existsb has_params chunks.
Proof. induction chunks as [|c chunks IH]; [done|]. cbn. by rewrite <- IH. Qed.

Lemma deterministic_code chunks query :
  chunks ≠ [] →
  code (build_deterministic_code chunks query) =
  join nl ([make_import_block (det_imports chunks); ""] ++
           (build_calls (numbers_of query) 0 0 None (function_info chunks)).1 ++
           if existsb has_params chunks then [""; print_result] else []).
Proof.
  intros Hne. destruct chunks as [|c chunks]; [done|].
  unfold build_deterministic_code.
  pose proof (build_calls_result_var (numbers_of query) 0 0 None
                (function_info (c :: chunks))) as Hrv.
  rewrite existsb_function_info in Hrv.
  destruct (build_calls _ _ _ _ _) as [calls rv]. cbn [fst snd code] in *.
  rewrite Hrv. by destruct (existsb has_params (c :: chunks)).
Qed.

Lemma deterministic_code_prints chunks query :
  existsb has_params chunks = true →
  has_print (code (build_deterministic_code chunks query)) = true.
Proof.
  intros Hp. rewrite deterministic_code by by destruct chunks.
  rewrite Hp.
  change [""; print_result] with ([""] ++ [print_result]).
  rewrite !app_assoc.
  destruct (join_snoc nl (([make_import_block (det_imports chunks); ""] ++
              (build_calls (numbers_of query) 0 0 None (function_info chunks)).1) ++ [""])
              print_result) as [pre ->].
  unfold has_print. by apply str_in_app_r.
Qed.

Lemma deterministic_filename chunks query :
  out_filename (build_deterministic_code chunks query) = "output.py".
Proof.
  unfold build_deterministic_code. destruct chunks; [done|].
  by destruct (build_calls _ _ _ _ _).
Qed.

(** C6. In deterministic assembly the arguments of a call are filled left
    to right: position 0 of a call made after a result was bound takes the
    result variable, every other position takes the next integer literal of
    the query, and once the pool is used up position [j] takes the literal
    [10 + j]; a call with parameters binds the result variable for the
    calls after it; the pool is the digit runs of the query, and the code
    is the import block, the calls and, if a result was bound, a print of
    it.  For [foo(x)] and [bar(y)] of file [utils] and the
    query [run foo then bar with 7], the output starts with
    [from utils import foo, bar], binds [result = foo(7)] and then
    [result = bar(result)], and ends with a print of [result]. *)
Theorem deterministic_argument_filling :
  (∀ result_var numbers count number_idx,
     build_args result_var numbers 0 count number_idx =
     (expected_arg result_var numbers number_idx <$> seq 0 count,
      number_idx + pool_taken result_var numbers number_idx count))
  ∧ (∀ numbers i number_idx result_var func rest,
       build_calls numbers i number_idx result_var (func :: rest) =
       let count := param_count func in
       let args := expected_arg result_var numbers number_idx <$> seq 0 count in
       let comment := "# Step " +:+ str (i + 1) +:+ ": Call " +:+ name func +:+
                      " (" +:+ str count +:+ " params)" in
       let call := if Nat.eqb count 0 then name func +:+ "()"
                   else "result = " +:+ name func +:+ "(" +:+ join ", " args +:+ ")" in
       let later := build_calls numbers (S i)
                      (number_idx + pool_taken result_var numbers number_idx count)
                      (if Nat.eqb count 0 then result_var else Some "result") rest in
       (comment :: call :: later.1, later.2))
  ∧ (∀ chunk chunks query,
       code (build_deterministic_code (chunk :: chunks) query) =
       join nl ([make_import_block (det_imports (chunk :: chunks)); ""] ++
                (build_calls (numbers_of query) 0 0 None
                   (function_info (chunk :: chunks))).1 ++
                if existsb has_params (chunk :: chunks) then [""; print_result] else []))
  ∧ (let utils_chunk fn p :=
       {| source := Some ("def " +:+ fn +:+ "(" +:+ p +:+ "):" +:+ nl +:+
                          "    return '" +:+ fn +:+ "'");
          filename := Some "utils"; func_name := Some fn;
          signature := Some {| params := Some [p]; returns := None |} |} in
     split LF (code (build_deterministic_code
                       [utils_chunk "foo" "x"; utils_chunk "bar" "y"]
                       "run foo then bar with 7")) =
     ["from utils import foo, bar"; "";
      "# Step 1: Call foo (1 params)"; "result = foo(7)";
      "# Step 2: Call bar (1 params)"; "result = bar(result)";
      ""; "print(f'Result: {result}')"]).
Proof.
  split; [|split; [|split]].
  - intros. apply build_args_spec.
  - intros. apply build_calls_cons.
  - intros. by apply deterministic_code.
  - vm_compute. reflexivity.
Qed.

(** C5 (as stated, refuted). Called with no chunk, the deterministic
    assembler returns a result whose code is one comment line: run, it
    completes without raising anything. *)
Lemma deterministic_empty_code_is_a_comment :
  code (build_deterministic_code [] "") = "# Error: Insufficient data for assembly"
  ∧ run (code (build_deterministic_code [] "")) = Some Completes
  ∧ run (code (build_deterministic_code [] "")) ≠ Some RaisesRuntimeError.
Proof. split; [reflexivity|split; [reflexivity|discriminate]]. Qed.

(** C5 (amended). Called with no chunk, the deterministic assembler returns
    a structured error result (no exception) whose code is the single
    comment line [# Error: Insufficient data for assembly]; it is the
    constrained assembler that, on an empty chunk list, returns a result
    whose code raises a runtime error when run. *)
Theorem empty_chunks_results (query : string) (error_context : option string)
    (model_loaded : bool) (generate re_search_json : string → option string)
    (json_loads : string → option ModelData) (py_compiles : string → bool) :
  build_deterministic_code [] query =
    {| reasoning := "ERROR: No matching chunks found. Cannot proceed.";
       code := "# Error: Insufficient data for assembly";
       out_filename := "output.py" |}
  ∧ run (code (build_deterministic_code [] query)) = Some Completes
  ∧ generate_glue_code model_loaded generate re_search_json json_loads py_compiles
      [] query error_context =
    {| reasoning := "ERROR: Set intersection returned empty. No matching code chunks.";
       code := "raise RuntimeError('Insufficient data: No matching chunks found')";
       out_filename := "output.py" |}
  ∧ run (code (generate_glue_code model_loaded generate re_search_json json_loads
                 py_compiles [] query error_context)) = Some RaisesRuntimeError.
Proof. repeat split; reflexivity. Qed.

End DeterministicFacts.

(** ** The constrained assembler and its validator chain *)

Module BridgeFacts.
Import PyStr PyStrFacts Bridge Spec.

Lemma use_before_define_cons line rest D :
  use_before_define (line :: rest) D =
  if is_assignment (strip line) then
    if existsb (λ var, str_in var (rhs_of line) && negb (bool_decide (var ∈ D))) sentinels
    then true
    else use_before_define rest
           (if negb (String.eqb (lhs_of line) "") && isidentifier (lhs_of line)
            then {[lhs_of line]} ∪ D else D)
  else use_before_define rest D.
Proof.
  cbn [use_before_define]. unfold is_assignment, lhs_of, rhs_of.
  destruct (split_once (strip line)) as [p0 p1]. cbn [fst snd].
  destruct (str_in "=" (strip line) && negb (startswith (strip line) "#")
            && negb (startswith (strip line) "def ")); cbn [andb]; [|done].
  destruct (str_in "==" (strip line) || str_in "!=" (strip line)
            || str_in "<=" (strip line) || str_in ">=" (strip line)); cbn [negb]; [done|].
  destruct (existsb _ sentinels); [done|].
  by destruct (negb (String.eqb (strip p0) "") && isidentifier (strip p0)).
Qed.

Lemma sentinel_is_identifier var :
  var ∈ sentinels → negb (String.eqb var "") && isidentifier var = true.
Proof.
  unfold sentinels. rewrite !elem_of_cons, elem_of_nil.
  intros [->|[->|[->|[->|[]]]]]; reflexivity.
Qed.

Lemma use_before_define_spec lines D :
  use_before_define lines D = true ↔ uses_before_definition_from D lines.
Proof.
  revert D. induction lines as [|line rest IH]; intros D.
  - split; [done|]. intros (i & l & var & Hl & _). by rewrite lookup_nil in Hl.
  - rewrite use_before_define_cons.
    destruct (is_assignment (strip line)) eqn:Ea.
    + destruct (existsb _ sentinels) eqn:Ex.
      * split; [intros _|done].
        apply existsb_exists in Ex as (var & Hin & [Hrhs Hd]%andb_true_iff).
        exists 0, line, var. repeat split; try done.
        -- by apply list_elem_of_In.
        -- apply negb_true_iff, bool_decide_eq_false in Hd. done.
        -- intros; lia.
      * rewrite IH. clear IH.
        assert (∀ var, var ∈ sentinels → str_in var (rhs_of line) = true → var ∈ D) as Hno.
        { intros var Hin Hrhs. destruct (decide (var ∈ D)) as [|Hn]; [done|].
          assert (existsb (λ var, str_in var (rhs_of line) && negb (bool_decide (var ∈ D)))
                    sentinels = true) as Hyes; [|congruence].
          apply existsb_exists. exists var. split; [by apply list_elem_of_In|].
          rewrite Hrhs, bool_decide_eq_false_2; done. }
        split.
        -- intros (i & l & var & Hl & Hal & Hin & Hrhs & Hd & Hearlier).
           exists (S i), l, var. repeat split; try done.
           ++ intros HD. apply Hd.
              destruct (negb _ && _); [apply elem_of_union; by right|done].
           ++ intros [|i'] l' Hlt Hl' Hal'.
              ** cbn in Hl'. injection Hl' as <-. intros Heq.
                 pose proof (sentinel_is_identifier var Hin) as Hid.
                 rewrite <- Heq in Hid. rewrite Hid in Hd.
                 apply Hd, elem_of_union. left. by apply elem_of_singleton.
              ** cbn in Hl'. apply (Hearlier i' l'); [lia|done..].
        -- intros (i & l & var & Hl & Hal & Hin & Hrhs & Hd & Hearlier).
           destruct i as [|i].
           { cbn in Hl. injection Hl as <-. by specialize (Hno var Hin Hrhs). }
           exists i, l, var. repeat split; try done.
           ++ destruct (negb _ && _); [|done].
              assert (lhs_of line ≠ var) by (apply (Hearlier 0 line); [lia|done..]).
              intros [?%elem_of_singleton|?]%elem_of_union; [congruence|done].
           ++ intros i' l' Hlt Hl' Hal'. apply (Hearlier (S i') l'); [lia|done..].
    + rewrite IH. clear IH. split.
      * intros (i & l & var & Hl & Hal & Hin & Hrhs & Hd & Hearlier).
        exists (S i), l, var. repeat split; try done.
        intros [|i'] l' Hlt Hl' Hal'.
        -- cbn in Hl'. injection Hl' as <-. congruence.
        -- cbn in Hl'. apply (Hearlier i' l'); [lia|done..].
      * intros (i & l & var & Hl & Hal & Hin & Hrhs & Hd & Hearlier).
        destruct i as [|i].
        { cbn in Hl. injection Hl as <-. congruence. }
        exists i, l, var. repeat split; try done.
        intros i' l' Hlt Hl' Hal'. apply (Hearlier (S i') l'); [lia|done..].
Qed.

Lemma any_in_true c fns :
  any_in c fns = Some true → ∃ fn, Some fn ∈ fns ∧ str_in fn c = true.
Proof.
  induction fns as [|[fn|] fns IH]; cbn [any_in]; try done.
  destruct (str_in fn c) eqn:E.
  - intros _. exists fn. split; [left|done].
  - intros (fn' & Hin & Hfn')%IH. exists fn'. split; [by right|done].
Qed.

Lemma with_imports_contains ib c : str_in ib (with_imports ib c) = true.
Proof.
  unfold with_imports. destruct (str_in ib c) eqn:E; [done|].
  apply str_in_app_l, str_in_refl.
Qed.

Lemma completeness_Some c c' :
  completeness c = Some c' →
  (has_print c = true ∨ has_result_assignment c = true) ∧
  c' = (if has_print c then c else rstrip c +:+ nl +:+ print_result) ∧
  has_print c' = true.
Proof.
  unfold completeness. destruct (has_print c) eqn:Ep.
  - intros [= <-]. auto.
  - destruct (has_result_assignment c); [|done]. intros [= <-].
    repeat split; [by right|]. unfold has_print. by do 2 apply str_in_app_r.
Qed.

Section WithModel.
Variable model_loaded : bool.
Variable generate re_search_json : string → option string.
Variable json_loads : string → option ModelData.
Variable py_compiles : string → bool.

Abbreviation generate_glue_code' :=
  (generate_glue_code model_loaded generate re_search_json json_loads py_compiles).

(** The validator chain as the composition of its five stages. *)
Lemma validate_stages ib fns code0 :
  validate py_compiles ib fns code0 =
  let c := with_imports ib code0 in
  match any_in c fns with
  | Some true =>
      if py_compiles c && negb (use_before_define (split LF c) ∅)
      then completeness c else None
  | _ => None
  end.
Proof.
  unfold validate, completeness. cbn zeta.
  destruct (any_in _ fns) as [[]|]; try done.
  destruct (py_compiles _); cbn [negb andb]; [|done].
  destruct (use_before_define _ ∅); cbn [negb]; [done|].
  by destruct (has_print _), (has_result_assignment _).
Qed.

(** Either the deterministic assembler's result is returned, or the model
    emitted a code that the validator chain accepted. *)
Lemma generate_glue_code_cases chunks query error_context :
  chunks ≠ [] →
  generate_glue_code' chunks query error_context = build_deterministic_code chunks query
  ∨ ∃ response matched data s c,
      model_loaded = true ∧
      generate (prompt_for chunks query error_context) = Some response ∧
      re_search_json response = Some matched ∧
      json_loads matched = Some data ∧ get_code data = Some s ∧
      validate py_compiles (import_block_for chunks) (func_name <$> chunks) (clean_code s)
        = Some c ∧
      generate_glue_code' chunks query error_context =
        {| reasoning := default "LLM assembly" (data_reasoning data);
           code := c; out_filename := "output.py" |}.
Proof.
  intros Hne. unfold generate_glue_code.
  destruct chunks as [|c0 chunks]; [done|].
  destruct model_loaded; [|by left].
  destruct (generate _) as [response|] eqn:Eg; [|by left].
  destruct (re_search_json response) as [matched|] eqn:Er; [|by left].
  destruct (json_loads matched) as [data|] eqn:Ej; [|by left].
  destruct (get_code data) as [s|] eqn:Ec; [|by left].
  destruct (validate _ _ _ _) as [c|] eqn:Ev; [|by left].
  right. exists response, matched, data, s, c. done.
Qed.

Lemma model_unavailable_fallback chunks query error_context :
  chunks ≠ [] → model_loaded = false →
  generate_glue_code' chunks query error_context = build_deterministic_code chunks query.
Proof.
  intros Hne Hm. destruct (generate_glue_code_cases chunks query error_context Hne)
    as [?|(?&?&?&?&?&?&?)]; [done|congruence].
Qed.

Lemma model_failure_fallback chunks query error_context :
  chunks ≠ [] → generate (prompt_for chunks query error_context) = None →
  generate_glue_code' chunks query error_context = build_deterministic_code chunks query.
Proof.
  intros Hne Hm. destruct (generate_glue_code_cases chunks query error_context Hne)
    as [?|(?&?&?&?&?&?&?&?)]; [done|congruence].
Qed.

Lemma use_before_define_fallback chunks query error_context s :
  chunks ≠ [] →
  model_emits generate re_search_json json_loads (prompt_for chunks query error_context) s →
  uses_before_definition (split LF (with_imports (import_block_for chunks) (clean_code s))) →
  generate_glue_code' chunks query error_context = build_deterministic_code chunks query.
Proof.
  intros Hne (response & matched & data & Hg & Hr & Hj & Hc) Hubd.
  destruct (generate_glue_code_cases chunks query error_context Hne)
    as [?|(r' & m' & d' & s' & c & _ & Hg' & Hr' & Hj' & Hc' & Hv & _)]; [done|].
  exfalso. simplify_eq. rewrite validate_stages in Hv. cbn zeta in Hv.
  apply use_before_define_spec in Hubd. rewrite Hubd in Hv.
  destruct (any_in _ _) as [[]|]; try done.
  by rewrite andb_false_r in Hv.
Qed.

Lemma accepted_code_passes chunks code0 c :
  validate py_compiles (import_block_for chunks) (func_name <$> chunks) code0 = Some c →
  ∃ c0, passes_validator py_compiles chunks c0
        ∧ c = (if has_print c0 then c0 else rstrip c0 +:+ nl +:+ print_result)
        ∧ has_print c = true.
Proof.
  rewrite validate_stages. cbn zeta. intros Hv.
  exists (with_imports (import_block_for chunks) code0).
  destruct (any_in _ _) as [[]|] eqn:Ea; try done.
  destruct (py_compiles _) eqn:Ep; [|done].
  destruct (use_before_define _ ∅) eqn:Eu; [done|].
  cbn [negb andb] in Hv. apply completeness_Some in Hv as (Hc & -> & Hp).
  split; [|done]. split; try done.
  - apply with_imports_contains.
  - by apply any_in_true.
  - intros Hubd%use_before_define_spec. congruence.
Qed.

(** C2 (amended). In the constrained assembler of [assembler_bridge.py],
    for every non-empty chunk list and every query: when the model is
    unavailable or its invocation fails the deterministic assembler's result
    is returned; and the returned code is always either the deterministic
    assembler's, or a code that contains the import block and a retrieved
    function name, compiled, passed the use-before-define scan and prints
    or binds the result, returned as it is or with a print of the result
    appended when it printed nothing. *)
Theorem bridge_grounding chunks query error_context :
  chunks ≠ [] →
  grounded model_loaded generate re_search_json json_loads py_compiles
    chunks query error_context.
Proof.
  intros Hne. unfold grounded. cbn zeta. split; [|split].
  - by apply model_unavailable_fallback.
  - by apply model_failure_fallback.
  - destruct (generate_glue_code_cases chunks query error_context Hne)
      as [?|(r' & m' & d' & s' & c & _ & _ & _ & _ & _ & Hv & ->)]; [by left|].
    right. cbn [code]. apply accepted_code_passes in Hv as (c0 & Hpass & -> & Hp).
    by exists c0.
Qed.

(** C7. Whenever the line scan of the code emitted by the model (cleaned,
    with the import block in front) finds an assignment line whose
    right-hand side mentions one of [result], [output], [value], [total]
    before that name was the left-hand side of an assignment line, the
    constrained assembler returns the deterministic fallback.  The code
    [result = double(result)] followed by [print(result)], with the single
    chunk [double], mentions a retrieved function and trips this rule. *)
Theorem use_before_define_diverts_to_fallback :
  (∀ chunks query error_context s,
     chunks ≠ [] →
     model_emits generate re_search_json json_loads
       (prompt_for chunks query error_context) s →
     uses_before_definition
       (split LF (with_imports (import_block_for chunks) (clean_code s))) →
     generate_glue_code' chunks query error_context =
       build_deterministic_code chunks query)
  ∧ (let double :=
       {| source := Some ("def double(x):" +:+ nl +:+ "    return x * 2");
          filename := Some "mathlib"; func_name := Some "double";
          signature := Some {| params := Some ["x"]; returns := None |} |} in
     let emitted := "result = double(result)" +:+ nl +:+ "print(result)" in
     let scanned := with_imports (import_block_for [double]) (clean_code emitted) in
     split LF scanned =
       ["from mathlib import double"; ""; "result = double(result)"; "print(result)"]
     ∧ any_in scanned [Some "double"] = Some true
     ∧ uses_before_definition (split LF scanned)
     ∧ validate py_compiles (import_block_for [double]) [Some "double"]
         (clean_code emitted) = None
     ∧ (∀ query error_context,
          model_emits generate re_search_json json_loads
            (prompt_for [double] query error_context) emitted →
          generate_glue_code' [double] query error_context =
            build_deterministic_code [double] query)).
Proof.
  split.
  - intros. by eapply use_before_define_fallback.
  - cbn zeta.
    match goal with
    | |- _ ∧ _ ∧ uses_before_definition ?l ∧ _ =>
        assert (uses_before_definition l) as Hubd
          by (apply use_before_define_spec; vm_compute; reflexivity)
    end.
    split; [vm_compute; reflexivity|].
    split; [vm_compute; reflexivity|].
    split; [done|]. split.
    + rewrite validate_stages. cbn zeta.
      apply use_before_define_spec in Hubd. rewrite Hubd.
      rewrite andb_false_r. by destruct (any_in _ _) as [[]|].
    + intros query error_context Hemits.
      by eapply use_before_define_fallback.
Qed.

(** C8 (amended). The completeness rule is the last stage of the validator
    chain: it rejects a code that neither prints nor binds the result, and
    appends a print of the result to a code that binds it without
    printing.  A code returned by the constrained assembler raises a
    runtime error (empty chunk list), or is the deterministic assembler's,
    or contains a print call.  The deterministic assembler's code contains
    a print call when some chunk has a parameter; when none has, it is the
    import block and the bare calls, with no print appended. *)
Theorem completeness_of_returned_code chunks query error_context :
  let r := generate_glue_code' chunks query error_context in
  let det := build_deterministic_code chunks query in
  (∀ import_block func_names code0,
     validate py_compiles import_block func_names code0 =
     let c := with_imports import_block code0 in
     match any_in c func_names with
     | Some true =>
         if py_compiles c && negb (use_before_define (split LF c) ∅)
         then completeness c else None
     | _ => None
     end)
  ∧ (chunks = [] ∧ run (code r) = Some RaisesRuntimeError
     ∨ r = det
     ∨ has_print (code r) = true)
  ∧ (existsb has_params chunks = true → has_print (code det) = true)
  ∧ (existsb has_params chunks = false → chunks ≠ [] →
     code det =
     join nl ([make_import_block (det_imports chunks); ""] ++
              (build_calls (numbers_of query) 0 0 None (function_info chunks)).1)).
Proof.
  cbn zeta. split; [|split; [|split]].
  - intros. apply validate_stages.
  - destruct chunks as [|c0 chunks'] eqn:E; [left; by split|]. rewrite <- E.
    assert (chunks ≠ []) as Hne by by rewrite E.
    destruct (generate_glue_code_cases chunks query error_context Hne)
      as [?|(r' & m' & d' & s' & c & _ & _ & _ & _ & _ & Hv & ->)]; [by auto|].
    right; right. cbn [code].
    by apply accepted_code_passes in Hv as (c1 & _ & _ & Hp).
  - apply DeterministicFacts.deterministic_code_prints.
  - intros Hp Hne. rewrite DeterministicFacts.deterministic_code by done.
    by rewrite Hp, app_nil_r.
Qed.

(** C10. On every return path of the constrained assembler (empty chunk
    list, accepted model output, each validator fallback, model failure)
    and on the parse-error path of the standard-input protocol, the
    result's file name is [output.py]; the file name in the model's JSON
    output has no effect on the result. *)
Theorem filename_is_output_py chunks query error_context :
  out_filename (generate_glue_code' chunks query error_context) = "output.py"
  ∧ out_filename (build_deterministic_code chunks query) = "output.py"
  ∧ (∀ json_loads_request input_data,
       out_filename <$>
         main model_loaded generate re_search_json json_loads py_compiles
           json_loads_request input_data =
       match input_data with "" => None | _ => Some "output.py" end)
  ∧ (∀ rename : ModelData → option string,
       generate_glue_code model_loaded generate re_search_json
         (λ matched,
            (λ data, {| data_reasoning := data_reasoning data;
                        data_code := data_code data;
                        data_filename := rename data |}) <$> json_loads matched)
         py_compiles chunks query error_context =
       generate_glue_code' chunks query error_context).
Proof.
  assert (∀ chunks query error_context,
            out_filename (generate_glue_code' chunks query error_context) = "output.py")
    as Hglue.
  { intros cs q ec. destruct cs as [|c0 cs'] eqn:E; [done|]. rewrite <- E.
    assert (cs ≠ []) as Hne by by rewrite E.
    destruct (generate_glue_code_cases cs q ec Hne)
      as [->|(r' & m' & d' & s' & c & _ & _ & _ & _ & _ & _ & ->)]; [|done].
    apply DeterministicFacts.deterministic_filename. }
  split; [apply Hglue|]. split; [apply DeterministicFacts.deterministic_filename|]. split.
  - intros jlr input. unfold main. destruct input; [done|].
    destruct (jlr _) as [e|request]; cbn; [done|]. by rewrite Hglue.
  - intros rename. unfold generate_glue_code.
    destruct chunks; [done|]. destruct model_loaded; [|done].
    destruct (generate _); [|done]. destruct (re_search_json _); [|done].
    by destruct (json_loads _).
Qed.

End WithModel.

(** C2 (as stated, refuted). The [Assembler] class of [assembler.py] has no
    deterministic fallback: without a model, or when the model's invocation
    fails, it returns a fixed stub, which is not the deterministic
    assembler's code, lacks the import block of the chunks, and goes to
    the file [generated_script.py]. *)
Lemma assembler_class_returns_stub :
  let foo :=
    {| source := Some ("def foo():" +:+ nl +:+ "    return 'foo'");
       filename := Some "utils"; func_name := Some "foo";
       signature := Some {| params := Some []; returns := None |} |} in
  let query := "invoke foo function" in
  let unavailable :=
    AssemblerPy.generate_glue_code false (λ _, None) (λ _, inl "") (λ _, "")
      (inr [foo]) query in
  let failing :=
    AssemblerPy.generate_glue_code true (λ _, None) (λ _, inl "") (λ _, "")
      (inr [foo]) query in
  unavailable = AssemblerPy._mock_response
  ∧ failing = AssemblerPy._mock_response
  ∧ split LF (code unavailable) =
      ["def main():"; "    print('This is generated glue code stub.')";
       "    # Invoking chunks would go here"]
  ∧ code unavailable ≠ code (build_deterministic_code [foo] query)
  ∧ str_in (import_block_for [foo]) (code unavailable) = false
  ∧ str_in "foo" (code unavailable) = false
  ∧ (∀ py_compiles, ¬ passes_validator py_compiles [foo] (code unavailable)).
Proof.
  cbn zeta. repeat split; try reflexivity.
  - discriminate.
  - intros py_compiles [Himp _ _ _ _]. vm_compute in Himp. discriminate.
Qed.

(** A model that answers with a valid call of the retrieved function: the
    hypothesis of C2 (amended) holds and the model's code is returned. *)
Lemma bridge_grounding_witness :
  let double :=
    {| source := Some ("def double(x):" +:+ nl +:+ "    return x * 2");
       filename := Some "mathlib"; func_name := Some "double";
       signature := Some {| params := Some ["x"]; returns := None |} |} in
  [double] ≠ []
  ∧ grounded true (λ _, Some "response") (λ _, Some "matched")
      (λ _, Some {| data_reasoning := Some "call double";
                    data_code := JString "result = double(4)";
                    data_filename := Some "main.py" |})
      (λ _, true) [double] "double 4" None.
Proof. split; [discriminate|]. apply bridge_grounding. discriminate. Defined.

(** C8 (as stated, refuted). With the single chunk [foo], which takes no
    parameter, the deterministic fallback is the import and the bare call:
    the returned code neither prints nor raises. *)
Lemma zero_arity_fallback_neither_prints_nor_raises :
  let foo :=
    {| source := Some ("def foo():" +:+ nl +:+ "    return 'foo'");
       filename := Some "utils"; func_name := Some "foo";
       signature := Some {| params := Some []; returns := None |} |} in
  let r := generate_glue_code false (λ _, None) (λ _, None) (λ _, None) (λ _, false)
             [foo] "invoke foo function" None in
  r = build_deterministic_code [foo] "invoke foo function"
  ∧ split LF (code r) = ["from utils import foo"; ""; "# Step 1: Call foo (0 params)"; "foo()"]
  ∧ prints_or_raises (code r) = false.
Proof. cbn zeta. repeat split; vm_compute; reflexivity. Qed.

End BridgeFacts.

(** * Further properties *)

(** ** Insertion-ordered dictionaries *)

Module DictFacts.
Import Indexer SpecExtra.

Lemma eqb_decide (a b : string) : String.eqb a b = bool_decide (a = b).
Proof.
  destruct (String.eqb_spec a b); [by rewrite bool_decide_eq_true_2|
                                   by rewrite bool_decide_eq_false_2].
Qed.

Lemma dict_get_set_ne {V} k k' (v : V) d :
  k ≠ k' → dict_get k' (dict_set k v d) = dict_get k' d.
Proof.
  intros Hne. induction d as [|[k0 v0] d IH]; simpl.
  - rewrite eqb_decide, bool_decide_eq_false_2; done.
  - rewrite (eqb_decide k0 k). case_bool_decide as E; simpl.
    + subst. rewrite !eqb_decide, !bool_decide_eq_false_2; done.
    + rewrite IH. done.
Qed.

Lemma dict_get_set_eq {V} k (v : V) d : dict_get k (dict_set k v d) = Some v.
Proof.
  induction d as [|[k' v'] d IH]; simpl.
  - by rewrite String.eqb_refl.
  - destruct (String.eqb k' k) eqn:E; simpl; rewrite E; done.
Qed.

Lemma dict_get_is_Some {V} k (d : list (string * V)) :
  is_Some (dict_get k d) ↔ k ∈ keys d.
Proof.
  unfold keys. induction d as [|[k0 v0] d IH]; simpl.
  - rewrite elem_of_nil. split; [by intros []|done].
  - rewrite eqb_decide, elem_of_cons. case_bool_decide; subst.
    + split; [by left|eauto].
    + rewrite IH. split; [by right|]. by intros [?|?].
Qed.

Lemma keys_dict_set {V} k (v : V) d :
  keys (dict_set k v d) = keys d ++ (if decide (k ∈ keys d) then [] else [k]).
Proof.
  unfold keys. induction d as [|[k0 v0] d IH].
  - rewrite decide_False; [done|]. apply not_elem_of_nil.
  - cbn [dict_set]. rewrite eqb_decide. case_bool_decide as E.
    + subst. rewrite decide_True by (rewrite fmap_cons; left). by rewrite app_nil_r.
    + rewrite !fmap_cons, IH. cbn [fst app]. f_equal. destruct (decide (k ∈ fst <$> d)).
      * rewrite decide_True; [done|by right].
      * rewrite decide_False; [done|]. rewrite elem_of_cons. by intros [?|?].
Qed.

Lemma NoDup_dict_set {V} k (v : V) d : NoDup (keys d) → NoDup (keys (dict_set k v d)).
Proof.
  intros Hnd. rewrite keys_dict_set. case_decide; [by rewrite app_nil_r|].
  apply NoDup_app. split; [done|]. split; [|apply NoDup_singleton].
  intros x Hx ->%list_elem_of_singleton. done.
Qed.

Lemma dict_ext {V} (d1 d2 : list (string * V)) :
  NoDup (keys d1) → keys d1 = keys d2 →
  (∀ k, dict_get k d1 = dict_get k d2) → d1 = d2.
Proof.
  unfold keys. revert d2. induction d1 as [|[k1 v1] d1 IH]; intros [|[k2 v2] d2]; try done.
  rewrite !fmap_cons. cbn [fst]. intros Hnd [= <- Hk] Hget.
  apply NoDup_cons in Hnd as [Hnotin Hnd].
  pose proof (Hget k1) as H1. simpl in H1. rewrite String.eqb_refl in H1.
  injection H1 as <-. f_equal. apply IH; [done..|].
  intros k. specialize (Hget k). simpl in Hget. rewrite eqb_decide in Hget.
  case_bool_decide; [|done]. subst.
  assert (dict_get k d1 = None) as ->.
  { apply eq_None_not_Some. by rewrite dict_get_is_Some. }
  symmetry. apply eq_None_not_Some. rewrite dict_get_is_Some. unfold keys. by rewrite <- Hk.
Qed.

Lemma apply_all_snoc {V} (us : list (string * V)) u d :
  apply_all (us ++ [u]) d = dict_set u.1 u.2 (apply_all us d).
Proof. unfold apply_all. by rewrite foldl_app. Qed.

Lemma dict_get_apply_all {V} k (us : list (string * V)) d :
  dict_get k (apply_all us d) =
  match snd <$> last (filter (λ u, u.1 = k) us) with
  | Some v => Some v
  | None => dict_get k d
  end.
Proof.
  induction us as [|u us IH] using rev_ind; [done|].
  rewrite apply_all_snoc, filter_app, filter_cons, filter_nil.
  case_decide as E.
  - rewrite last_snoc. simpl. rewrite <- E. apply dict_get_set_eq.
  - rewrite app_nil_r, dict_get_set_ne by done. apply IH.
Qed.

Lemma keys_apply_all_prefix {V} (us : list (string * V)) d :
  keys d `prefix_of` keys (apply_all us d).
Proof.
  induction us as [|u us IH] using rev_ind; [done|].
  rewrite apply_all_snoc, keys_dict_set.
  etrans; [apply IH|]. by apply prefix_app_r.
Qed.

Lemma NoDup_apply_all {V} (us : list (string * V)) d :
  NoDup (keys d) → NoDup (keys (apply_all us d)).
Proof.
  intros Hd. induction us as [|u us IH] using rev_ind; [done|].
  rewrite apply_all_snoc. by apply NoDup_dict_set.
Qed.

Lemma keys_app {V} (a b : list (string * V)) : keys (a ++ b) = keys a ++ keys b.
Proof. apply fmap_app. Qed.

Lemma elem_of_keys_apply_all {V} k (us : list (string * V)) d :
  k ∈ keys (apply_all us d) ↔ k ∈ keys d ∨ k ∈ keys us.
Proof.
  induction us as [|u us IH] using rev_ind.
  - change (keys []) with (@nil string). rewrite elem_of_nil. cbn. tauto.
  - rewrite apply_all_snoc, keys_dict_set, keys_app, !elem_of_app.
    change (keys [u]) with [u.1]. rewrite list_elem_of_singleton.
    case_decide as E.
    + rewrite elem_of_nil, IH. split; [tauto|].
      intros [?|[?| ->]]; [tauto..|]. left. by apply IH.
    + rewrite list_elem_of_singleton, IH. tauto.
Qed.

Lemma keys_apply_all_present {V} (us : list (string * V)) d :
  (∀ k, k ∈ keys us → k ∈ keys d) → keys (apply_all us d) = keys d.
Proof.
  intros Hin. induction us as [|u us IH] using rev_ind; [done|].
  rewrite apply_all_snoc, keys_dict_set.
  assert (keys (apply_all us d) = keys d) as Hk.
  { apply IH. intros k Hk. apply Hin. rewrite keys_app, elem_of_app. by left. }
  rewrite Hk, decide_True; [by rewrite app_nil_r|].
  apply Hin. rewrite keys_app, elem_of_app. right. left.
Qed.

Lemma apply_all_idempotent {V} (us : list (string * V)) d :
  NoDup (keys d) → apply_all us (apply_all us d) = apply_all us d.
Proof.
  intros Hd. apply dict_ext.
  - by do 2 apply NoDup_apply_all.
  - apply keys_apply_all_present. intros k Hk. apply elem_of_keys_apply_all. by right.
  - intros k. rewrite !dict_get_apply_all. by destruct (snd <$> last _).
Qed.

End DictFacts.

(** ** More on the indexer *)

Module IndexerExtra.
Import PyStr Indexer IndexerTrees SpecExtra DictFacts.

Lemma process_node_entry sha256 file capture_name node st :
  process_node sha256 file capture_name node st =
  match node_entry capture_name node with
  | Some e =>
      {| index := dict_set e.1 (stored file e.2) (index st);
         extracted_chunks := dict_set e.1 e.2.1 (extracted_chunks st) |}
  | None => st
  end.
Proof.
  unfold process_node, node_entry.
  destruct (String.eqb capture_name "function" || String.eqb capture_name "class"); [|done].
  by destruct (child_by_field_name node "name").
Qed.

Lemma apply_all_app {V} (a b : list (string * V)) d :
  apply_all (a ++ b) d = apply_all b (apply_all a d).
Proof. apply foldl_app. Qed.

Lemma process_capture_entries sha256 file capture st :
  process_capture sha256 file capture st =
  let es := omap (node_entry capture.1) capture.2 in
  {| index := apply_all (index_updates file es) (index st);
     extracted_chunks := apply_all (source_updates es) (extracted_chunks st) |}.
Proof.
  unfold process_capture. destruct capture as [cname nodes]. cbn [fst snd].
  revert st. induction nodes as [|node nodes IH]; intros st; [by destruct st|].
  cbn [foldl]. rewrite IH, process_node_entry. cbn [omap list_omap].
  by destruct (node_entry cname node).
Qed.

Lemma parse_file_from sha256 file captures st :
  foldl (λ st capture, process_capture sha256 file capture st) st captures =
  {| index := apply_all (index_updates file (entries captures)) (index st);
     extracted_chunks := apply_all (source_updates (entries captures)) (extracted_chunks st) |}.
Proof.
  revert st. induction captures as [|capture captures IH]; intros st; [by destruct st|].
  cbn [foldl]. rewrite IH, process_capture_entries. cbn zeta. cbn [index extracted_chunks].
  unfold entries, index_updates, source_updates.
  rewrite fmap_cons, concat_cons, !fmap_app, !apply_all_app. done.
Qed.

Lemma parse_file_entries sha256 file captures index0 :
  parse_file sha256 file captures index0 =
  {| index := apply_all (index_updates file (entries captures)) index0;
     extracted_chunks := apply_all (source_updates (entries captures)) [] |}.
Proof. apply parse_file_from. Qed.

Lemma last_update_fmap {V} (g : string * Signature → V) k es :
  snd <$> last (filter (λ u, u.1 = k)
                  ((λ e : string * (string * Signature), (e.1, g e.2)) <$> es)) =
  g <$> last_definition k es.
Proof.
  unfold last_definition.
  induction es as [|e es IH] using rev_ind; [done|].
  rewrite fmap_app, !filter_app, fmap_cons, fmap_nil, !filter_cons, !filter_nil.
  cbn [fst]. case_decide.
  - by rewrite !last_snoc.
  - by rewrite !app_nil_r.
Qed.

Lemma keys_index_updates file es : keys (index_updates file es) = keys es.
Proof. unfold keys, index_updates. rewrite <- list_fmap_compose. done. Qed.

(** X1. Indexing the same file a second time changes nothing: the index
    after the second pass is the index after the first, and the dictionary
    returned is the same. *)
Theorem reindex_idempotent (sha256 : string → string) (file : string)
    (captures : list (string * list Node)) (index0 : list (string * IndexValue)) :
  NoDup (keys index0) →
  let once := parse_file sha256 file captures index0 in
  let twice := parse_file sha256 file captures (index once) in
  index twice = index once ∧ extracted_chunks twice = extracted_chunks once.
Proof.
  intros Hnd. cbn zeta. rewrite !parse_file_entries. cbn [index extracted_chunks].
  split; [|done]. by apply apply_all_idempotent.
Qed.

Lemma reindex_idempotent_witness :
  NoDup (keys [("foo", Legacy "def foo(): pass")])
  ∧ let captures := [("function", [function_definition "foo" [Plain "x"];
                                     function_definition "bar" []])] in
    let once := parse_file (λ s, s) "utils" captures [("foo", Legacy "def foo(): pass")] in
    let twice := parse_file (λ s, s) "utils" captures (index once) in
    index twice = index once ∧ extracted_chunks twice = extracted_chunks once.
Proof.
  assert (NoDup (keys [("foo", Legacy "def foo(): pass")])) as Hnd
    by (apply NoDup_singleton).
  split; [exact Hnd|]. exact (reindex_idempotent _ _ _ _ Hnd).
Defined.

Lemma dict_get_parse_file sha256 file captures index0 name :
  dict_get name (index (parse_file sha256 file captures index0)) =
  match last_definition name (entries captures) with
  | Some e => Some (Structured (Some e.1) (Some file) (Some e.2))
  | None => dict_get name index0
  end.
Proof.
  rewrite parse_file_entries. cbn [index]. rewrite dict_get_apply_all.
  unfold index_updates. rewrite (last_update_fmap (stored file)).
  by destruct (last_definition name (entries captures)).
Qed.







(** X2. After a file is indexed, a name is mapped to the last definition of
    that name in the file, with the file as its origin; a name the file
    does not define keeps the entry it had. *)
Theorem index_holds_last_definition (sha256 : string → string) (file : string)
    (captures : list (string * list Node)) (index0 : list (string * IndexValue))
    (name : string) :
  dict_get name (index (parse_file sha256 file captures index0)) =
  match last_definition name (entries captures) with
  | Some e => Some (Structured (Some e.1) (Some file) (Some e.2))
  | None => dict_get name index0
  end.
Proof. apply dict_get_parse_file. Qed.

(** X3. Indexing keeps the keys of the index unique, leaves the entries it
    had at their positions and appends the new names after them; the keys
    afterwards are the old keys and the names the file defines. *)
Theorem index_keys_grow (sha256 : string → string) (file : string)
    (captures : list (string * list Node)) (index0 : list (string * IndexValue)) :
  NoDup (keys index0) →
  let after := index (parse_file sha256 file captures index0) in
  NoDup (keys after)
  ∧ keys index0 `prefix_of` keys after
  ∧ ∀ name, name ∈ keys after ↔ name ∈ keys index0 ∨ name ∈ keys (entries captures).
Proof.
  intros Hnd. cbn zeta. rewrite parse_file_entries. cbn [index]. split; [|split].
  - by apply NoDup_apply_all.
  - apply keys_apply_all_prefix.
  - intros name. by rewrite elem_of_keys_apply_all, keys_index_updates.
Qed.

Lemma index_keys_grow_witness :
  NoDup (keys [("foo", Legacy "def foo(): pass")])
  ∧ let after := index (parse_file (λ s, s) "utils"
                          [("function", [function_definition "bar" [];
                                         function_definition "foo" []])]
                          [("foo", Legacy "def foo(): pass")]) in
    NoDup (keys after)
    ∧ keys [("foo", Legacy "def foo(): pass")] `prefix_of` keys after
    ∧ ∀ name, name ∈ keys after ↔
              name ∈ keys [("foo", Legacy "def foo(): pass")]
              ∨ name ∈ keys (entries [("function", [function_definition "bar" [];
                                                     function_definition "foo" []])]).
Proof.
  assert (NoDup (keys [("foo", Legacy "def foo(): pass")])) as Hnd
    by (apply NoDup_singleton).
  split; [exact Hnd|]. exact (index_keys_grow _ _ _ _ Hnd).
Defined.

(** X4. The dictionary that [parse_file] returns maps each name the file
    defines to the source of its last definition, and that is the source
    the index holds for the name. *)
Theorem extracted_chunks_agree_with_index (sha256 : string → string) (file : string)
    (captures : list (string * list Node)) (index0 : list (string * IndexValue))
    (name : string) :
  let st := parse_file sha256 file captures index0 in
  dict_get name (extracted_chunks st) = fst <$> last_definition name (entries captures)
  ∧ ∀ src, dict_get name (extracted_chunks st) = Some src →
           ∃ sig, dict_get name (index st) =
                  Some (Structured (Some src) (Some file) (Some sig)).
Proof.
  cbn zeta. rewrite parse_file_entries. cbn [index extracted_chunks].
  rewrite !dict_get_apply_all. unfold index_updates, source_updates.
  rewrite (last_update_fmap (stored file)), (last_update_fmap fst).
  destruct (last_definition name (entries captures)) as [[src sig]|]; cbn.
  - split; [done|]. intros ? [= <-]. by exists sig.
  - split; [done|]. intros ? [=].
Qed.

Lemma collect_params_any_param p acc :
  collect_params [any_param_node p] acc = acc ++ option_list (read_name p).
Proof.
  destruct p as [d| | | | | | |]; cbn; rewrite ?app_nil_r; try done.
  by destruct d.
Qed.

Lemma read_names_cons p ps : read_names (p :: ps) = option_list (read_name p) ++ read_names ps.
Proof. unfold read_names. cbn [omap list_omap]. by destruct (read_name p). Qed.

Lemma collect_params_comma_separated_any ps acc :
  collect_params (snd <$> comma_separated_any ps) acc = acc ++ read_names ps.
Proof.
  revert acc. induction ps as [|p ps IH]; intros acc.
  - by rewrite app_nil_r.
  - destruct ps as [|p' ps].
    + rewrite (collect_params_any_param p), read_names_cons. by rewrite app_nil_r.
    + change (snd <$> comma_separated_any (p :: p' :: ps))
        with ([any_param_node p] ++ [leaf "," ","] ++
              (snd <$> comma_separated_any (p' :: ps))).
      rewrite !IndexerFacts.collect_params_app, collect_params_any_param,
        IndexerFacts.collect_params_comma, IH.
      by rewrite <- app_assoc, <- read_names_cons.
Qed.

(** X5. What the signature of a function keeps of each kind of parameter
    of Python 3: the name of a plain, typed or default parameter; an
    annotated [*args] or [**kwargs] as the text [*args] or [**kwargs],
    stars included; nothing of a typed parameter with a default value, of
    a bare [*args] or [**kwargs] and of the separators [*] and [/]. *)
Theorem parameter_kinds_in_the_signature (name : string) (ps : list Param) :
  extract_signature (function_definition_any name ps) =
    {| params := Some (read_names ps); returns := None |}
  ∧ (let h := function_definition_any "h" [TypedListSplat "args" "int";
                                             TypedDictSplat "kw" "str"] in
     text h = "def h(*args: int, **kw: str): pass"
     ∧ params (extract_signature h) = Some ["*args"; "**kw"])
  ∧ (let g := function_definition_any "g" [Read (Plain "a"); PositionalSeparator;
                                             TypedDefault "b" "int" "1"; ListSplat "args";
                                             Read (WithDefault "c" "2"); DictSplat "kw"] in
     text g = "def g(a, /, b: int = 1, *args, c=2, **kw): pass"
     ∧ params (extract_signature g) = Some ["a"; "c"])
  ∧ (let k := function_definition_any "k" [Read (Typed "a" "int"); KeywordSeparator;
                                             Read (Plain "b")] in
     text k = "def k(a: int, *, b): pass"
     ∧ params (extract_signature k) = Some ["a"; "b"]).
Proof.
  split; [|split; [|split]; split; reflexivity].
  unfold extract_signature.
  cbn [function_definition_any child_by_field_name find_field String.eqb Ascii.eqb Bool.eqb].
  unfold parameters_node_any, children.
  rewrite !fmap_app, !IndexerFacts.collect_params_app.
  rewrite collect_params_comma_separated_any. done.
Qed.


End IndexerExtra.

(** ** More on the retriever *)

Module RetrieverExtra.
Import PyStr PyStrFacts Retriever Spec SpecExtra RetrieverFacts.

Lemma search_filter (index : Index) query :
  search index query =
  if decide (SalientTokenSet query = ∅) then None
  else match retrieved <$> filter (qualifies (SalientTokenSet query)) index with
       | [] => None
       | results => Some results
       end.
Proof.
  unfold search. destruct (target_tokens query) as [|t l] eqn:E.
  - rewrite decide_True; [done|]. by apply target_tokens_nil.
  - rewrite decide_False.
    2:{ intros H%target_tokens_nil. congruence. }
    by rewrite <- E, search_loop_filter.
Qed.

Lemma findall_go_separated p cur a c b :
  p c = false →
  findall_go p cur (a +:+ String c b) = findall_go p cur a ++ findall_go p "" b.
Proof.
  intros Hc. revert cur. induction a as [|x a IH]; intros cur.
  - change ("" +:+ String c b) with (String c b). cbn. by rewrite Hc.
  - rewrite app_cons. cbn [findall_go]. destruct (p x); [apply IH|].
    by rewrite IH, app_assoc.
Qed.

Lemma findall_space q1 q2 :
  findall isword (q1 +:+ " " +:+ q2) = findall isword q1 ++ findall isword q2.
Proof. apply (findall_go_separated isword "" q1 " "%char q2). reflexivity. Qed.

Lemma filter_sublist_impl {A} (P Q : A → Prop) `{!∀ x, Decision (P x)}
    `{!∀ x, Decision (Q x)} (l : list A) :
  (∀ x, P x → Q x) → filter P l `sublist_of` filter Q l.
Proof.
  intros HPQ. induction l as [|x l IH]; [done|].
  rewrite !filter_cons. destruct (decide (P x)).
  - rewrite decide_True by auto. by apply sublist_skip.
  - destruct (decide (Q x)); [by apply sublist_cons|done].
Qed.

(** X7. A query whose words all have at most three characters retrieves
    nothing, whatever the index holds. *)
Theorem short_words_retrieve_nothing (index : Index) (query : string) :
  Forall (λ t, String.length t ≤ 3) (findall isword query) →
  search index query = None.
Proof.
  intros Hshort. unfold search.
  destruct (target_tokens query) as [|t l] eqn:E; [done|].
  assert (t ∈ target_tokens query) as [Ht Hlen]%elem_of_target_tokens
    by (rewrite E; left).
  rewrite Forall_forall in Hshort. specialize (Hshort t Ht). lia.
Qed.

Lemma short_words_retrieve_nothing_witness :
  Forall (λ t, String.length t ≤ 3) (findall isword "run foo")
  ∧ search [("foo", Structured (Some "def foo(): pass") (Some "utils") None)] "run foo" = None.
Proof.
  assert (Forall (λ t, String.length t ≤ 3) (findall isword "run foo")) as H
    by (vm_compute; repeat constructor).
  split; [exact H|]. exact (short_words_retrieve_nothing _ _ H).
Defined.

(** X9. Adding words to a query can only narrow the result: every chunk
    retrieved for [query1 query2] is retrieved for [query1] alone, in the
    same order, provided [query1] has a salient token. *)
Theorem more_words_narrow_the_result (index : Index) (query1 query2 : string)
    (results : list Chunk) :
  search index (query1 +:+ " " +:+ query2) = Some results →
  SalientTokenSet query1 ≠ ∅ →
  ∃ results1, search index query1 = Some results1 ∧ results `sublist_of` results1.
Proof.
  rewrite !search_filter. intros Hres Hne.
  rewrite (decide_False _ _ Hne). case_decide; [done|].
  assert (filter (qualifies (SalientTokenSet (query1 +:+ " " +:+ query2))) index
          `sublist_of` filter (qualifies (SalientTokenSet query1)) index) as Hsub.
  { apply filter_sublist_impl. intros e Hq t Ht. apply Hq.
    apply elem_of_SalientTokenSet in Ht as (u & -> & Hu & Hlen).
    apply elem_of_SalientTokenSet. exists u. rewrite findall_space, elem_of_app. auto. }
  apply (fmap_sublist retrieved) in Hsub.
  destruct (retrieved <$> filter _ index) as [|c cs] eqn:E12 in Hres; [done|].
  injection Hres as <-. rewrite E12 in Hsub.
  destruct (retrieved <$> filter (qualifies (SalientTokenSet query1)) index) as [|c1 cs1].
  - by apply sublist_nil_r in Hsub.
  - eauto.
Qed.

Lemma more_words_narrow_the_result_witness :
  let index := [("create_user", Legacy "def create_user(name): pass");
                ("delete_user", Legacy "def delete_user(id): pass")] in
  search index ("user" +:+ " " +:+ "create") = Some [retrieved ("create_user", Legacy "def create_user(name): pass")]
  ∧ SalientTokenSet "user" ≠ ∅
  ∧ ∃ results1, search index "user" = Some results1
                ∧ [retrieved ("create_user", Legacy "def create_user(name): pass")]
                  `sublist_of` results1.
Proof.
  cbn zeta.
  assert (search [("create_user", Legacy "def create_user(name): pass");
                  ("delete_user", Legacy "def delete_user(id): pass")]
            ("user" +:+ " " +:+ "create") =
          Some [retrieved ("create_user", Legacy "def create_user(name): pass")]) as H1
    by (vm_compute; reflexivity).
  assert (SalientTokenSet "user" ≠ ∅) as H2 by (vm_compute; discriminate).
  split; [exact H1|]. split; [exact H2|].
  exact (more_words_narrow_the_result _ _ _ _ H1 H2).
Defined.

(** X10. A search never returns an empty list; what it returns has at most
    as many chunks as the index has entries, and every chunk comes from an
    entry of the index, carrying that entry's name and source and a file
    name and a signature. *)
Theorem search_result_shape (index : Index) (query : string) (results : list Chunk) :
  search index query = Some results →
  results ≠ [] ∧ length results ≤ length index
  ∧ ∀ c, c ∈ results →
      ∃ name v, (name, v) ∈ index ∧ func_name c = Some name
                ∧ source c = Some (entry_source v)
                ∧ is_Some (filename c) ∧ is_Some (signature c).
Proof.
  rewrite search_filter. case_decide; [done|].
  destruct (retrieved <$> filter _ index) as [|c0 cs] eqn:E; [done|].
  intros [= <-]. split; [done|]. split.
  - rewrite <- E, length_fmap. apply length_filter.
  - intros c Hc. rewrite <- E in Hc.
    apply list_elem_of_fmap in Hc as ([name v] & -> & [_ Hin]%list_elem_of_filter).
    exists name, v. destruct v; cbn; eauto.
Qed.

Lemma search_result_shape_witness :
  let index := [("create_user", Legacy "def create_user(name): pass")] in
  let results := [retrieved ("create_user", Legacy "def create_user(name): pass")] in
  search index "create user" = Some results
  ∧ results ≠ [] ∧ length results ≤ length index
  ∧ ∀ c, c ∈ results →
      ∃ name v, (name, v) ∈ index ∧ func_name c = Some name
                ∧ source c = Some (entry_source v)
                ∧ is_Some (filename c) ∧ is_Some (signature c).
Proof.
  cbn zeta.
  assert (search [("create_user", Legacy "def create_user(name): pass")] "create user" =
          Some [retrieved ("create_user", Legacy "def create_user(name): pass")]) as H
    by (vm_compute; reflexivity).
  split; [exact H|]. exact (search_result_shape _ _ _ H).
Defined.

(** X11. Entries are judged one by one: searching an index made of two
    parts gives the results of the first part followed by those of the
    second, and null only if both parts give null. *)
Theorem search_of_joined_indexes (index1 index2 : Index) (query : string) :
  search (index1 ++ index2) query =
  merge_results (search index1 query) (search index2 query).
Proof.
  rewrite !search_filter. case_decide; [done|].
  rewrite filter_app, fmap_app.
  destruct (retrieved <$> filter _ index1), (retrieved <$> filter _ index2); try done.
  by rewrite app_nil_r.
Qed.

End RetrieverExtra.

(** ** More on strings *)

Module PyStrExtra.
Import PyStr PyStrFacts.

Lemma app_empty_r s : s +:+ "" = s.
Proof. induction s as [|c s IH]; [done|]. by rewrite app_cons, IH. Qed.

Lemma startswith_iff s p : startswith s p = true ↔ ∃ post, s = p +:+ post.
Proof.
  revert s. induction p as [|a p IH]; intros s.
  - split; [|done]. intros _. by exists s.
  - destruct s as [|b s]; cbn [startswith].
    + split; [done|]. intros [post H]. by rewrite app_cons in H.
    + rewrite andb_true_iff, IH. split.
      * intros [->%Ascii.eqb_eq [post ->]]. by exists post.
      * intros [post H]. rewrite app_cons in H. injection H as -> ->.
        split; [apply Ascii.eqb_refl|by exists post].
Qed.

(** [sub in s] holds exactly when [s] is some text, [sub], some text. *)
Lemma str_in_iff sub s : str_in sub s = true ↔ ∃ pre post, s = pre +:+ sub +:+ post.
Proof.
  split.
  - induction s as [|c s IH]; cbn [str_in].
    + rewrite orb_false_r. intros [post H]%startswith_iff. by exists "", post.
    + intros [[post H]%startswith_iff|H]%orb_true_iff.
      * by exists "", post.
      * destruct (IH H) as (pre & post & ->). by exists (String c pre), post.
  - intros (pre & post & ->). apply str_in_app_r, str_in_app_l, str_in_refl.
Qed.

Lemma str_in_trans a b c : str_in a b = true → str_in b c = true → str_in a c = true.
Proof.
  intros (p1 & q1 & ->)%str_in_iff (p2 & q2 & ->)%str_in_iff.
  apply str_in_iff. exists (p2 +:+ p1), (q1 +:+ q2). by rewrite !app_assoc_str.
Qed.

Lemma str_in_false_tail sub c s : str_in sub (String c s) = false → str_in sub s = false.
Proof. cbn [str_in]. by intros [_ ?]%orb_false_iff. Qed.

Lemma str_in_false_startswith sub s : str_in sub s = false → startswith s sub = false.
Proof. destruct s; cbn [str_in]; by intros [? _]%orb_false_iff. Qed.

Lemma join_cons sep x l : ∃ post, join sep (x :: l) = x +:+ post.
Proof. destruct l; [exists ""; by rewrite app_empty_r|by eexists]. Qed.

Lemma str_in_join sep x l : x ∈ l → str_in x (join sep l) = true.
Proof.
  induction l as [|y l IH]; [by intros ?%elem_of_nil|].
  intros [->|Hin]%elem_of_cons.
  - destruct (join_cons sep y l) as [post ->]. apply str_in_app_l, str_in_refl.
  - destruct l as [|z l]; [by apply elem_of_nil in Hin|].
    change (join sep (y :: z :: l)) with (y +:+ sep +:+ join sep (z :: l)).
    by do 2 apply str_in_app_r; apply IH.
Qed.

Lemma lstrip_suffix s : ∃ pre, s = pre +:+ lstrip s.
Proof.
  induction s as [|c s [pre IH]]; [by exists ""|].
  cbn [lstrip]. destruct (isspace c); [|by exists ""].
  exists (String c pre). by rewrite app_cons, <- IH.
Qed.

Lemma rstrip_prefix s : ∃ post, s = rstrip s +:+ post.
Proof.
  induction s as [|c s [post IH]]; [by exists ""|].
  cbn [rstrip]. destruct (rstrip s) as [|c' r] eqn:E.
  - destruct (isspace c); [by exists (String c s)|].
    exists s. done.
  - exists post. by rewrite app_cons, <- IH.
Qed.

Lemma str_in_strip a s : str_in a (strip s) = true → str_in a s = true.
Proof.
  intros H. eapply str_in_trans; [exact H|]. unfold strip.
  destruct (lstrip_suffix s) as [pre Hs]. destruct (rstrip_prefix (lstrip s)) as [post Hr].
  apply str_in_iff. exists pre, post. by rewrite <- Hr.
Qed.

Lemma lstrip_head s :
  match lstrip s with "" => True | String c _ => isspace c = false end.
Proof.
  induction s as [|c s IH]; [done|]. cbn [lstrip].
  destruct (isspace c) eqn:E; [done|]. done.
Qed.

Lemma rstrip_head c s : isspace c = false → ∃ r, rstrip (String c s) = String c r.
Proof. intros Hc. cbn [rstrip]. rewrite Hc. destruct (rstrip s); eauto. Qed.

Lemma rstrip_idempotent s : rstrip (rstrip s) = rstrip s.
Proof.
  induction s as [|c s IH]; [done|]. cbn [rstrip].
  destruct (rstrip s) as [|c' r] eqn:E.
  - destruct (isspace c) eqn:Ec; [done|]. cbn [rstrip]. by rewrite Ec.
  - change (rstrip (String c (String c' r))) with
      (match rstrip (String c' r) with
       | "" => if isspace c then "" else String c ""
       | r' => String c r'
       end).
    rewrite IH. done.
Qed.

Lemma strip_idempotent s : strip (strip s) = strip s.
Proof.
  unfold strip. pose proof (lstrip_head s) as Hh.
  destruct (lstrip s) as [|c t] eqn:E; [done|].
  destruct (rstrip_head c t Hh) as [r Hr]. rewrite Hr.
  cbn [lstrip]. rewrite Hh, <- Hr. apply rstrip_idempotent.
Qed.

End PyStrExtra.

(** ** More on the deterministic assembler *)

Module DeterministicExtra.
Import PyStr PyStrFacts PyStrExtra Indexer Bridge Spec SpecExtra DictFacts DeterministicFacts.

Lemma dict_get_update_eq k f d :
  dict_get k (dict_update k f d) = Some (f (default [] (dict_get k d))).
Proof.
  induction d as [|[k' v'] d IH]; cbn [dict_update dict_get].
  - by rewrite String.eqb_refl.
  - destruct (String.eqb k' k) eqn:E; cbn [dict_get]; rewrite E; done.
Qed.

Lemma dict_get_update_ne k k' f d :
  k ≠ k' → dict_get k' (dict_update k f d) = dict_get k' d.
Proof.
  intros Hne. induction d as [|[k0 v0] d IH]; cbn [dict_update dict_get].
  - rewrite eqb_decide, bool_decide_eq_false_2; done.
  - rewrite (eqb_decide k0 k). case_bool_decide as E; cbn [dict_get].
    + subst. rewrite !eqb_decide, !bool_decide_eq_false_2; done.
    + by rewrite IH.
Qed.

Lemma keys_dict_update k f d :
  keys (dict_update k f d) = keys d ++ (if decide (k ∈ keys d) then [] else [k]).
Proof.
  unfold keys. induction d as [|[k0 v0] d IH].
  - rewrite decide_False; [done|]. apply not_elem_of_nil.
  - cbn [dict_update]. rewrite eqb_decide. case_bool_decide as E.
    + subst. rewrite decide_True by (rewrite fmap_cons; left). by rewrite app_nil_r.
    + rewrite !fmap_cons, IH. cbn [fst app]. f_equal. destruct (decide (k ∈ fst <$> d)).
      * rewrite decide_True; [done|by right].
      * rewrite decide_False; [done|]. rewrite elem_of_cons. by intros [?|?].
Qed.

Lemma dict_update_ext k f g d :
  f (default [] (dict_get k d)) = g (default [] (dict_get k d)) →
  dict_update k f d = dict_update k g d.
Proof.
  induction d as [|[k0 v0] d IH]; cbn [dict_update dict_get].
  - intros H. cbn in H. by rewrite H.
  - destruct (String.eqb k0 k).
    + intros H. cbn in H. by rewrite H.
    + intros H. by rewrite IH.
Qed.

Lemma det_imports_snoc chunks chunk :
  det_imports (chunks ++ [chunk]) =
  dict_update (chunk_filename chunk) (append_new (chunk_func_name chunk)) (det_imports chunks).
Proof. unfold det_imports. by rewrite foldl_app. Qed.

Lemma glue_imports_snoc chunks chunk :
  glue_imports (chunks ++ [chunk]) =
  dict_update (chunk_filename chunk) (λ funcs, funcs ++ [chunk_func_name chunk])
    (glue_imports chunks).
Proof. unfold glue_imports. by rewrite foldl_app. Qed.

Lemma elem_of_append_new fn fn' l : fn' ∈ append_new fn l ↔ fn' ∈ l ∨ fn' = fn.
Proof.
  unfold append_new. case_bool_decide.
  - split; [tauto|]. by intros [?| ->].
  - rewrite elem_of_app, list_elem_of_singleton. done.
Qed.

Lemma NoDup_append_new fn l : NoDup l → NoDup (append_new fn l).
Proof.
  intros Hl. unfold append_new. case_bool_decide; [done|].
  apply NoDup_app. split; [done|]. split; [|apply NoDup_singleton].
  by intros x Hx ->%list_elem_of_singleton.
Qed.

Lemma det_imports_spec chunks :
  NoDup (keys (det_imports chunks))
  ∧ (∀ f funcs, dict_get f (det_imports chunks) = Some funcs →
       NoDup funcs ∧ ∀ fn, fn ∈ funcs ↔ ∃ chunk, chunk ∈ chunks ∧ import_key chunk = (f, fn))
  ∧ (∀ chunk, chunk ∈ chunks → is_Some (dict_get (chunk_filename chunk) (det_imports chunks))).
Proof.
  induction chunks as [|c chunks (IHk & IHf & IHc)] using rev_ind.
  - split; [constructor|]. split; [done|]. by intros ? ?%elem_of_nil.
  - rewrite det_imports_snoc. split; [|split].
    + rewrite keys_dict_update. case_decide; [by rewrite app_nil_r|].
      apply NoDup_app. split; [done|]. split; [|apply NoDup_singleton].
      by intros x Hx ->%list_elem_of_singleton.
    + intros f funcs. destruct (decide (chunk_filename c = f)) as [<-|Hne].
      * rewrite dict_get_update_eq. intros [= <-].
        destruct (dict_get (chunk_filename c) (det_imports chunks)) as [l|] eqn:El; cbn [default].
        -- destruct (IHf _ _ El) as [Hnd Hin]. split; [by apply NoDup_append_new|].
           intros fn. rewrite elem_of_append_new, Hin. split.
           ++ intros [(ch & Hch & Hk)| ->].
              ** exists ch. split; [|done]. apply elem_of_app. by left.
              ** exists c. split; [|done]. apply elem_of_app. right. left.
           ++ intros (ch & [Hch| ->%list_elem_of_singleton]%elem_of_app & Hk).
              ** left. eauto.
              ** right. by injection Hk.
        -- split; [apply NoDup_append_new; constructor|].
           intros fn. rewrite elem_of_append_new, elem_of_nil. split.
           ++ intros [[]| ->]. exists c. split; [|done]. apply elem_of_app. right. left.
           ++ intros (ch & [Hch| ->%list_elem_of_singleton]%elem_of_app & Hk).
              ** exfalso. destruct (IHc ch Hch) as [l Hl].
                 injection Hk as Hf _. rewrite Hf in Hl. congruence.
              ** right. by injection Hk.
      * rewrite dict_get_update_ne by done. intros Hget.
        destruct (IHf _ _ Hget) as [Hnd Hin]. split; [done|].
        intros fn. rewrite Hin. split.
        -- intros (ch & Hch & Hk). exists ch. split; [|done]. apply elem_of_app. by left.
        -- intros (ch & [Hch| ->%list_elem_of_singleton]%elem_of_app & Hk); [eauto|].
           injection Hk as Hf _. done.
    + intros ch [Hch| ->%list_elem_of_singleton]%elem_of_app.
      * destruct (decide (chunk_filename c = chunk_filename ch)) as [<-|Hne].
        -- rewrite dict_get_update_eq. eauto.
        -- rewrite dict_get_update_ne by done. by apply IHc.
      * rewrite dict_get_update_eq. eauto.
Qed.

(** X12. The import dictionary of the deterministic assembler has one entry
    for each file that a chunk names; the entry lists, without repetition,
    exactly the functions of the chunks of that file. *)
Theorem deterministic_imports_cover_the_chunks (chunks : list Chunk) :
  let imports := det_imports chunks in
  NoDup (keys imports)
  ∧ (∀ f funcs, dict_get f imports = Some funcs →
       NoDup funcs ∧ ∀ fn, fn ∈ funcs ↔ ∃ chunk, chunk ∈ chunks ∧ import_key chunk = (f, fn))
  ∧ (∀ chunk, chunk ∈ chunks → is_Some (dict_get (chunk_filename chunk) imports)).
Proof. apply det_imports_spec. Qed.

Lemma det_imports_glue_imports chunks :
  NoDup (import_key <$> chunks) → det_imports chunks = glue_imports chunks.
Proof.
  induction chunks as [|c chunks IH] using rev_ind; [done|].
  rewrite fmap_app, NoDup_app. intros (Hnd & Hnotin & _).
  rewrite det_imports_snoc, glue_imports_snoc, <- IH by done.
  apply dict_update_ext. unfold append_new. case_bool_decide as Hin; [|done].
  exfalso. destruct (det_imports_spec chunks) as (_ & Hf & _).
  destruct (dict_get (chunk_filename c) (det_imports chunks)) as [l|] eqn:El;
    cbn [default] in Hin; [|by apply elem_of_nil in Hin].
  destruct (Hf _ _ El) as [_ Hl]. apply Hl in Hin as (ch & Hch & Hk).
  apply (Hnotin (import_key ch)).
  - apply list_elem_of_fmap. eauto.
  - rewrite Hk. cbn. left.
Qed.

(** X13. When no two chunks share file and name, the deterministic
    assembler builds the same import block as the constrained assembler
    asks the model for, and its code starts with that block. *)
Theorem deterministic_code_starts_with_import_block (chunks : list Chunk) (query : string) :
  NoDup (import_key <$> chunks) → chunks ≠ [] →
  det_imports chunks = glue_imports chunks
  ∧ startswith (code (build_deterministic_code chunks query)) (import_block_for chunks) = true.
Proof.
  intros Hnd Hne. split; [by apply det_imports_glue_imports|].
  rewrite deterministic_code by done. unfold import_block_for.
  rewrite <- det_imports_glue_imports by done.
  cbn [app]. destruct (join_cons nl (make_import_block (det_imports chunks))
                         ("" :: (build_calls (numbers_of query) 0 0 None
                                   (function_info chunks)).1 ++
                                if existsb has_params chunks then [""; print_result] else []))
    as [post ->].
  apply startswith_iff. by exists post.
Qed.

Lemma deterministic_code_starts_with_import_block_witness :
  let foo := {| source := Some "def foo(x): return x"; filename := Some "utils";
                func_name := Some "foo";
                signature := Some {| params := Some ["x"]; returns := None |} |} in
  let bar := {| source := Some "def bar(): pass"; filename := Some "utils";
                func_name := Some "bar"; signature := None |} in
  NoDup (import_key <$> [foo; bar]) ∧ [foo; bar] ≠ []
  ∧ det_imports [foo; bar] = glue_imports [foo; bar]
  ∧ startswith (code (build_deterministic_code [foo; bar] "foo 3 then bar"))
      (import_block_for [foo; bar]) = true.
Proof.
  cbn zeta.
  set (foo := {| source := Some "def foo(x): return x"; filename := Some "utils";
                 func_name := Some "foo";
                 signature := Some {| params := Some ["x"]; returns := None |} |}).
  set (bar := {| source := Some "def bar(): pass"; filename := Some "utils";
                 func_name := Some "bar"; signature := None |}).
  assert (NoDup (import_key <$> [foo; bar])) as Hnd.
  { apply NoDup_cons. split; [|apply NoDup_singleton].
    intros [=]%list_elem_of_singleton. }
  assert ([foo; bar] ≠ []) as Hne by done.
  split; [exact Hnd|]. split; [exact Hne|].
  exact (deterministic_code_starts_with_import_block _ _ Hnd Hne).
Defined.

Lemma pool_demand_app bound pre post :
  pool_demand bound (pre ++ post) =
  pool_demand bound pre + pool_demand (bound || existsb has_params pre) post.
Proof.
  revert bound. induction pre as [|c pre IH]; intros bound; cbn [app pool_demand existsb].
  - by rewrite orb_false_r.
  - rewrite IH, orb_assoc. lia.
Qed.

Lemma build_calls_script numbers chunks : ∀ pre,
  (build_calls numbers (length pre) (length numbers `min` pool_demand false pre)
     (if existsb has_params pre then Some "result" else None) (function_info chunks)).1 =
  concat (imap (λ k chunk, call_lines numbers (pre ++ take k chunks) chunk) chunks).
Proof.
  induction chunks as [|c chunks IH]; intros pre; [done|].
  change (function_info (c :: chunks))
    with ({| name := chunk_func_name c; fn_params := chunk_params c;
             param_count := length (chunk_params c) |} :: function_info chunks).
  rewrite build_calls_cons. cbn zeta. cbn [fst name param_count].
  rewrite imap_cons. cbn [concat take]. rewrite app_nil_r.
  unfold call_lines at 1. cbn [app]. f_equal. f_equal.
  specialize (IH (pre ++ [c])).
  rewrite length_app, Nat.add_1_r in IH.
  rewrite pool_demand_app, existsb_app in IH. cbn [pool_demand existsb orb] in IH.
  rewrite orb_false_r in IH.
  erewrite (imap_ext _ (λ k chunk, call_lines numbers ((pre ++ [c]) ++ take k chunks) chunk)).
  2:{ intros k chunk _. cbn [compose take]. by rewrite <- (app_assoc pre [c]). }
  rewrite <- IH.
  assert (length numbers `min` pool_demand false pre +
          pool_taken (if existsb has_params pre then Some "result" else None) numbers
            (length numbers `min` pool_demand false pre) (length (chunk_params c)) =
          length numbers `min` (pool_demand false pre +
            (length (chunk_params c) - (if existsb has_params pre then 1 else 0) + 0)))
    as -> by (unfold pool_taken; destruct (existsb has_params pre); lia).
  assert ((if Nat.eqb (length (chunk_params c)) 0
           then if existsb has_params pre then Some "result" else None
           else Some "result") =
          (if existsb has_params pre || has_params c then Some "result" else None)) as ->.
  { destruct (existsb has_params pre); unfold has_params;
      by destruct (Nat.eqb (length (chunk_params c)) 0). }
  done.
Qed.

Lemma length_concat_pairs {A B} (f : nat → A → list B) (l : list A) :
  (∀ k a, length (f k a) = 2) → length (concat (imap f l)) = 2 * length l.
Proof.
  revert f. induction l as [|a l IH]; intros f Hf; [done|].
  rewrite imap_cons. cbn [concat]. rewrite length_app, Hf, (IH (f ∘ S)).
  - cbn [length]. lia.
  - intros k b. apply Hf.
Qed.

Lemma lookup_concat_pairs {A B} (f : nat → A → list B) (l : list A) k a :
  (∀ k a, length (f k a) = 2) → l !! k = Some a →
  take 2 (drop (2 * k) (concat (imap f l))) = f k a.
Proof.
  revert f k. induction l as [|b l IH]; intros f k Hf Hk; [done|].
  rewrite imap_cons. cbn [concat]. destruct k as [|k].
  - injection Hk as ->. change (2 * 0) with 0. rewrite drop_0.
    rewrite take_app_length'; [done|by rewrite Hf].
  - cbn [lookup list_lookup] in Hk.
    replace (2 * S k) with (length (f 0 b) + 2 * k) by (rewrite Hf; lia).
    rewrite drop_app_add. apply (IH (f ∘ S)); [|done]. intros k' a'. apply Hf.
Qed.

Lemma length_call_lines numbers before chunk : length (call_lines numbers before chunk) = 2.
Proof. done. Qed.

(** X14. The script of the deterministic assembler is its import block, an
    empty line, two lines for each chunk in the order of the chunks and,
    when some chunk has a parameter, an empty line and a print of the
    result.  The two lines of a chunk are a numbered comment and a call of
    its function: a bare call when the signature has no parameter once a
    leading [self] is set aside, else an assignment to [result] with one
    argument for each of these parameters, filled from left to right: the
    result variable first when an earlier chunk has bound it, then the
    integers of the query that the earlier calls have left, then the
    literals [10 + j]. *)
Theorem script_follows_the_chunks (chunks : list Chunk) (query : string) :
  chunks ≠ [] →
  let numbers := numbers_of query in
  code (build_deterministic_code chunks query) =
    join nl ([make_import_block (det_imports chunks); ""] ++
             script_calls numbers chunks ++
             if existsb has_params chunks then [""; print_result] else [])
  ∧ length (script_calls numbers chunks) = 2 * length chunks
  ∧ ∀ k chunk, chunks !! k = Some chunk →
      let before := take k chunks in
      let n := length (chunk_params chunk) in
      let result_var := if existsb has_params before then Some "result" else None in
      let number_idx := length numbers `min` pool_demand false before in
      let args := expected_arg result_var numbers number_idx <$> seq 0 n in
      length args = n
      ∧ take 2 (drop (2 * k) (script_calls numbers chunks)) =
        ["# Step " +:+ str (k + 1) +:+ ": Call " +:+ chunk_func_name chunk +:+
           " (" +:+ str n +:+ " params)";
         if Nat.eqb n 0 then chunk_func_name chunk +:+ "()"
         else "result = " +:+ chunk_func_name chunk +:+ "(" +:+ join ", " args +:+ ")"].
Proof.
  intros Hne numbers. split; [|split].
  - rewrite deterministic_code by done.
    pose proof (build_calls_script numbers chunks []) as Hcalls.
    cbn [length pool_demand existsb app] in Hcalls. rewrite Nat.min_0_r in Hcalls.
    fold numbers. rewrite Hcalls. done.
  - apply length_concat_pairs. intros. apply length_call_lines.
  - intros k chunk Hk before n result_var number_idx args.
    split; [unfold args; by rewrite length_fmap, length_seq|].
    unfold script_calls.
    rewrite (lookup_concat_pairs _ chunks k chunk) by (done || intros; apply length_call_lines).
    unfold call_lines. fold before n result_var number_idx args.
    assert (length before = k) as ->; [|done].
    unfold before. rewrite length_take. apply lookup_lt_Some in Hk. lia.
Qed.

Lemma script_follows_the_chunks_witness :
  let method := {| source := Some "def scale(self, x, factor): return x * factor";
                   filename := Some "shapes"; func_name := Some "scale";
                   signature := Some {| params := Some ["self"; "x"; "factor"];
                                        returns := None |} |} in
  let reset := {| source := Some "def reset(): pass"; filename := Some "shapes";
                  func_name := Some "reset"; signature := None |} in
  let grow := {| source := Some "def grow(shape, by, steps): pass"; filename := Some "utils";
                 func_name := Some "grow";
                 signature := Some {| params := Some ["shape"; "by"; "steps"];
                                      returns := None |} |} in
  [method; reset; grow] ≠ []
  ∧ split LF (code (build_deterministic_code [method; reset; grow] "scale 4 by 2 and grow 3")) =
    ["from shapes import scale, reset"; "from utils import grow"; "";
     "# Step 1: Call scale (2 params)"; "result = scale(4, 2)";
     "# Step 2: Call reset (0 params)"; "reset()";
     "# Step 3: Call grow (3 params)"; "result = grow(result, 3, 12)";
     ""; "print(f'Result: {result}')"]
  ∧ script_calls (numbers_of "scale 4 by 2 and grow 3") [method; reset; grow] =
    ["# Step 1: Call scale (2 params)"; "result = scale(4, 2)";
     "# Step 2: Call reset (0 params)"; "reset()";
     "# Step 3: Call grow (3 params)"; "result = grow(result, 3, 12)"].
Proof.
  cbn zeta.
  set (chunks := [_; _; _]).
  assert (chunks ≠ []) as Hne by done.
  split; [exact Hne|].
  destruct (script_follows_the_chunks chunks "scale 4 by 2 and grow 3" Hne) as (Hcode & _ & _).
  split; [|vm_compute; reflexivity].
  rewrite Hcode. vm_compute. reflexivity.
Defined.

End DeterministicExtra.

(** ** More on the constrained assembler *)

Module BridgeExtra.
Import PyStr PyStrFacts PyStrExtra Bridge Spec SpecExtra BridgeFacts.

Lemma glue_imports_head c cs :
  ∃ more rest,
    glue_imports (c :: cs) = (chunk_filename c, chunk_func_name c :: more) :: rest.
Proof.
  induction cs as [|x cs (more & rest & IH)] using rev_ind.
  - by exists [], [].
  - rewrite app_comm_cons, DeterministicExtra.glue_imports_snoc, IH.
    cbn [dict_update]. destruct (String.eqb (chunk_filename c) (chunk_filename x)).
    + by exists (more ++ [chunk_func_name x]), rest.
    + by eexists more, _.
Qed.

Lemma import_block_mentions_first c cs :
  str_in (chunk_func_name c) (import_block_for (c :: cs)) = true.
Proof.
  unfold import_block_for, make_import_block.
  destruct (glue_imports_head c cs) as (more & rest & ->).
  rewrite fmap_cons.
  destruct (join_cons nl (import_line (chunk_filename c, chunk_func_name c :: more))
              (import_line <$> rest)) as [post ->].
  apply str_in_app_l. unfold import_line. cbn [fst snd].
  do 3 apply str_in_app_r.
  destruct (join_cons ", " (chunk_func_name c) more) as [post' ->].
  apply str_in_app_l, str_in_refl.
Qed.

(** X15. The function-usage rule cannot reject anything once the import
    block is in the code: when the first chunk has a [func_name], that name
    is in the import block, so the validator's verdict is that of the
    compile check, the use-before-define scan and the completeness rule. *)
Theorem function_usage_rule_never_rejects (py_compiles : string → bool)
    (c : Chunk) (cs : list Chunk) (fn code0 : string) :
  func_name c = Some fn →
  let checked := with_imports (import_block_for (c :: cs)) code0 in
  any_in checked (func_name <$> c :: cs) = Some true
  ∧ validate py_compiles (import_block_for (c :: cs)) (func_name <$> c :: cs) code0 =
    if py_compiles checked && negb (use_before_define (split LF checked) ∅)
    then completeness checked else None.
Proof.
  intros Hfn. cbn zeta.
  assert (any_in (with_imports (import_block_for (c :: cs)) code0)
            (func_name <$> c :: cs) = Some true) as Hany.
  { rewrite fmap_cons, Hfn. cbn [any_in].
    assert (str_in fn (with_imports (import_block_for (c :: cs)) code0) = true) as ->; [|done].
    eapply str_in_trans; [|apply with_imports_contains].
    pose proof (import_block_mentions_first c cs) as H.
    unfold chunk_func_name in H. by rewrite Hfn in H. }
  split; [done|]. rewrite validate_stages. cbn zeta. by rewrite Hany.
Qed.

Lemma function_usage_rule_never_rejects_witness :
  let double := {| source := Some "def double(x): return x * 2"; filename := Some "mathlib";
                   func_name := Some "double";
                   signature := Some {| params := Some ["x"]; returns := None |} |} in
  let checked := with_imports (import_block_for [double]) "print(42)" in
  func_name double = Some "double"
  ∧ any_in checked (func_name <$> [double]) = Some true
  ∧ validate (λ _, true) (import_block_for [double]) (func_name <$> [double]) "print(42)" =
    if (λ _, true) checked && negb (use_before_define (split LF checked) ∅)
    then completeness checked else None.
Proof.
  cbn zeta. split; [reflexivity|].
  apply (function_usage_rule_never_rejects (λ _, true) _ [] "double" "print(42)").
  reflexivity.
Defined.

(** X16. A chunk list whose first chunk has no [func_name] always gets the
    deterministic assembler's result, whatever the model answers. *)
Theorem unnamed_first_chunk_falls_back (model_loaded : bool)
    (generate re_search_json : string → option string)
    (json_loads : string → option ModelData) (py_compiles : string → bool)
    (c : Chunk) (cs : list Chunk) (query : string) (error_context : option string) :
  func_name c = None →
  generate_glue_code model_loaded generate re_search_json json_loads py_compiles
    (c :: cs) query error_context =
  build_deterministic_code (c :: cs) query.
Proof.
  intros Hfn.
  destruct (generate_glue_code_cases model_loaded generate re_search_json json_loads
              py_compiles (c :: cs) query error_context)
    as [?|(r & m & d & s & c' & _ & _ & _ & _ & _ & Hv & _)]; [done..|].
  exfalso. rewrite validate_stages in Hv. cbn zeta in Hv.
  by rewrite fmap_cons, Hfn in Hv.
Qed.

Lemma unnamed_first_chunk_falls_back_witness :
  let anonymous := {| source := Some "def f(): pass"; filename := Some "utils";
                      func_name := None; signature := None |} in
  func_name anonymous = None
  ∧ generate_glue_code true (λ _, Some "r") (λ _, Some "m")
      (λ _, Some {| data_reasoning := None; data_code := JString "print(f())";
                    data_filename := None |})
      (λ _, true) [anonymous] "call f" None =
    build_deterministic_code [anonymous] "call f".
Proof.
  cbn zeta. split; [reflexivity|].
  apply unnamed_first_chunk_falls_back. reflexivity.
Defined.

Lemma sub_go_unmatched m s : ∀ bol,
  (∀ bol' pre post, s = pre +:+ post → m bol' post = None) →
  sub_go m 0 bol s = s.
Proof.
  induction s as [|c s IH]; intros bol Hm; [done|].
  cbn [sub_go]. rewrite (Hm bol "" (String c s) eq_refl). f_equal.
  apply IH. intros bol' pre post ->. by apply (Hm bol' (String c pre) post).
Qed.

Lemma no_occurrence_no_prefix sub s pre post :
  str_in sub s = false → s = pre +:+ post → startswith post sub = false.
Proof.
  intros Hs ->. destruct (startswith post sub) eqn:E; [|done].
  apply startswith_iff in E as [r ->].
  assert (str_in sub (pre +:+ sub +:+ r) = true) as H; [|congruence].
  apply str_in_iff. by exists pre, r.
Qed.

Lemma drop_one_newline post :
  startswith post nl = true → ∃ r, post = nl +:+ r ∧ drop_chars 1 post = r.
Proof. intros [r ->]%startswith_iff. by exists r. Qed.

(** X17. A text with no code fence and no import from [output] is only
    stripped of its outer white space by [clean_code]. *)
Theorem clean_code_keeps_clean_text (code : string) :
  str_in "```" code = false → str_in "from output import" code = false →
  clean_code code = strip code.
Proof.
  intros Hfence Himport. unfold clean_code, re_sub_delete.
  assert (sub_go fence_open 0 true code = code) as ->.
  { apply sub_go_unmatched. intros bol pre post Hs. unfold fence_open.
    by rewrite (no_occurrence_no_prefix _ _ _ _ Hfence Hs), andb_false_r. }
  assert (sub_go fence_close 0 true code = code) as ->.
  { apply sub_go_unmatched. intros bol pre post Hs. unfold fence_close.
    destruct (startswith post nl) eqn:En.
    - destruct (drop_one_newline post En) as (r & Hr & ->).
      rewrite (no_occurrence_no_prefix "```" code (pre +:+ nl) r); [done..|].
      by rewrite Hs, Hr, app_assoc_str.
    - cbn [drop_chars]. by rewrite (no_occurrence_no_prefix _ _ _ _ Hfence Hs). }
  assert (sub_go self_import 0 true code = code) as ->; [|done].
  apply sub_go_unmatched. intros bol pre post Hs. unfold self_import.
  by rewrite (no_occurrence_no_prefix _ _ _ _ Himport Hs), andb_false_r.
Qed.

Lemma clean_code_keeps_clean_text_witness :
  str_in "```" "  result = foo(1)  " = false
  ∧ str_in "from output import" "  result = foo(1)  " = false
  ∧ clean_code "  result = foo(1)  " = strip "  result = foo(1)  ".
Proof.
  split; [reflexivity|]. split; [reflexivity|].
  exact (clean_code_keeps_clean_text "  result = foo(1)  " eq_refl eq_refl).
Defined.

Lemma rstrip_strip s : rstrip (strip s) = strip s.
Proof. apply rstrip_idempotent. Qed.

Lemma rstrip_app a b : rstrip b ≠ "" → rstrip (a +:+ b) = a +:+ rstrip b.
Proof.
  intros Hb. induction a as [|c a IH]; [done|].
  rewrite !app_cons. cbn [rstrip]. rewrite IH.
  destruct (a +:+ rstrip b) eqn:E; [|done].
  destruct a; [exfalso; exact (Hb E)|by rewrite app_cons in E].
Qed.

(** X18. Cleaned code has no white space at either end, in both
    assemblers; hence, when the model's code is not empty, the print that
    the completeness rule appends is added to the checked code as it is,
    with nothing removed. *)
Theorem cleaned_code_is_stripped (code0 import_block : string) :
  strip (clean_code code0) = clean_code code0
  ∧ strip (AssemblerPy._clean_code code0) = AssemblerPy._clean_code code0
  ∧ (clean_code code0 ≠ "" →
     rstrip (with_imports import_block (clean_code code0)) =
     with_imports import_block (clean_code code0)).
Proof.
  split; [apply strip_idempotent|]. split; [apply strip_idempotent|].
  intros Hne. unfold with_imports.
  assert (rstrip (clean_code code0) = clean_code code0) as Hr by apply rstrip_strip.
  destruct (str_in import_block (clean_code code0)); [done|].
  rewrite <- !app_assoc_str, rstrip_app by by rewrite Hr. by rewrite Hr.
Qed.

(** X24. The validator never edits the model's code: a code it accepts is
    the cleaned code, with the import block and a blank line in front
    unless the code contained the block already, and followed by a print
    of the result only when the code itself has no print call. *)
Theorem accepted_code_is_the_model_code (py_compiles : string → bool)
    (import_block : string) (func_names : list (option string)) (emitted accepted : string) :
  validate py_compiles import_block func_names (clean_code emitted) = Some accepted →
  clean_code emitted ≠ "" →
  ∃ pre post,
    accepted = pre +:+ clean_code emitted +:+ post
    ∧ pre = (if str_in import_block (clean_code emitted) then ""
             else import_block +:+ nl +:+ nl)
    ∧ post = (if has_print (pre +:+ clean_code emitted) then ""
              else nl +:+ print_result).
Proof.
  intros Hv Hne. rewrite validate_stages in Hv. cbn zeta in Hv.
  destruct (any_in _ func_names) as [[]|]; try done.
  destruct (py_compiles _ && _); [|done].
  apply completeness_Some in Hv as (_ & -> & _).
  assert (rstrip (with_imports import_block (clean_code emitted)) =
          with_imports import_block (clean_code emitted)) as Hr.
  { unfold with_imports.
    assert (rstrip (clean_code emitted) = clean_code emitted) as Hc by apply rstrip_strip.
    destruct (str_in import_block (clean_code emitted)); [done|].
    rewrite <- !app_assoc_str, rstrip_app by by rewrite Hc. by rewrite Hc. }
  rewrite Hr. unfold with_imports.
  destruct (str_in import_block (clean_code emitted)).
  - exists "", (if has_print (clean_code emitted) then "" else nl +:+ print_result).
    split; [|done]. change ("" +:+ ?x) with x.
    destruct (has_print (clean_code emitted)); [by rewrite app_empty_r|done].
  - exists (import_block +:+ nl +:+ nl),
           (if has_print ((import_block +:+ nl +:+ nl) +:+ clean_code emitted)
            then "" else nl +:+ print_result).
    split; [|done]. rewrite !app_assoc_str.
    destruct (has_print _); [by rewrite app_empty_r|done].
Qed.

Lemma accepted_code_is_the_model_code_witness :
  validate (λ _, true) "from mathlib import double" [Some "double"]
    (clean_code "result = double(4)") =
    Some ("from mathlib import double" +:+ nl +:+ nl +:+ "result = double(4)" +:+ nl +:+
          print_result)
  ∧ clean_code "result = double(4)" ≠ ""
  ∧ ∃ pre post,
      "from mathlib import double" +:+ nl +:+ nl +:+ "result = double(4)" +:+ nl +:+
        print_result = pre +:+ clean_code "result = double(4)" +:+ post
      ∧ pre = (if str_in "from mathlib import double" (clean_code "result = double(4)")
               then "" else "from mathlib import double" +:+ nl +:+ nl)
      ∧ post = (if has_print (pre +:+ clean_code "result = double(4)") then ""
                else nl +:+ print_result).
Proof.
  assert (validate (λ _, true) "from mathlib import double" [Some "double"]
            (clean_code "result = double(4)") =
          Some ("from mathlib import double" +:+ nl +:+ nl +:+ "result = double(4)" +:+
                nl +:+ print_result)) as H1 by (vm_compute; reflexivity).
  assert (clean_code "result = double(4)" ≠ "") as H2 by (vm_compute; discriminate).
  split; [exact H1|]. split; [exact H2|].
  exact (accepted_code_is_the_model_code _ _ _ _ _ H1 H2).
Defined.

End BridgeExtra.

(** ** The scan, the prompt and the two front ends *)

Module FrontEndExtra.
Import PyStr PyStrFacts PyStrExtra Bridge Spec SpecExtra BridgeFacts.

Lemma split_go_elem c cur s line :
  line ∈ split_go c cur s → ∃ pre post, cur +:+ s = pre +:+ line +:+ post.
Proof.
  revert cur. induction s as [|x s IH]; intros cur; cbn [split_go].
  - intros ->%list_elem_of_singleton. by exists "", "".
  - destruct (Ascii.eqb x c).
    + intros [->|Hin]%elem_of_cons; [by exists "", (String x s)|].
      destruct (IH "" Hin) as (pre & post & H). change ("" +:+ s) with s in H.
      exists (cur +:+ String x pre), post. by rewrite H, !app_assoc_str, app_cons.
    + intros Hin. destruct (IH _ Hin) as (pre & post & H).
      exists pre, post. by rewrite <- H, app_assoc_str.
Qed.

Lemma str_in_line a line code :
  line ∈ split LF code → str_in a line = true → str_in a code = true.
Proof.
  intros (pre & post & H)%split_go_elem Ha. change ("" +:+ code) with code in H.
  eapply str_in_trans; [exact Ha|]. apply str_in_iff. eauto.
Qed.

Lemma split_once_suffix s : ∃ pre, s = pre +:+ (split_once s).2.
Proof.
  induction s as [|c s [pre IH]]; [by exists ""|].
  cbn [split_once]. destruct (Ascii.eqb c "="); [by exists (String c "")|].
  destruct (split_once s) as [l r]. cbn [snd] in *. exists (String c pre).
  by rewrite app_cons, <- IH.
Qed.

Lemma str_in_rhs a line : str_in a (rhs_of line) = true → str_in a line = true.
Proof.
  unfold rhs_of. intros H%str_in_strip. apply str_in_strip.
  eapply str_in_trans; [exact H|].
  destruct (split_once_suffix (strip line)) as [pre Hs].
  apply str_in_iff. exists pre, "". by rewrite app_empty_r.
Qed.

(** X19. The use-before-define scan can only trip on a code that contains
    one of the words [result], [output], [value], [total]: a code without
    any of them passes the scan. *)
Theorem scan_trips_only_on_sentinels (code0 : string) :
  Forall (λ var, str_in var code0 = false) sentinels →
  use_before_define (split LF code0) ∅ = false.
Proof.
  intros Hnone. destruct (use_before_define _ ∅) eqn:E; [|done].
  apply use_before_define_spec in E as (i & line & var & Hl & _ & Hvar & Hrhs & _).
  rewrite Forall_forall in Hnone. specialize (Hnone var Hvar).
  assert (str_in var code0 = true) as H; [|congruence].
  eapply str_in_line; [by eapply list_elem_of_lookup_2|]. by apply str_in_rhs.
Qed.

Lemma scan_trips_only_on_sentinels_witness :
  Forall (λ var, str_in var ("x = double(x)" +:+ nl +:+ "print(x)") = false) sentinels
  ∧ use_before_define (split LF ("x = double(x)" +:+ nl +:+ "print(x)")) ∅ = false.
Proof.
  assert (Forall (λ var, str_in var ("x = double(x)" +:+ nl +:+ "print(x)") = false)
            sentinels) as H by (repeat constructor).
  split; [exact H|]. exact (scan_trips_only_on_sentinels _ H).
Defined.

Lemma str_in_empty s : str_in "" s = true.
Proof. by destruct s. Qed.

(** X20. The prompt given to the model contains, verbatim, the import
    block, the query, the source of every chunk and the error text of a
    previous attempt; an empty error text gives the prompt of a first
    attempt. *)
Theorem prompt_shows_the_context (chunks : list Chunk) (query : string)
    (error_context : option string) :
  let prompt := prompt_for chunks query error_context in
  str_in (import_block_for chunks) prompt = true
  ∧ str_in query prompt = true
  ∧ (∀ c src, c ∈ chunks → source c = Some src → str_in src prompt = true)
  ∧ (∀ e, error_context = Some e → str_in e prompt = true)
  ∧ prompt_for chunks query (Some "") = prompt_for chunks query None.
Proof.
  cbn zeta. unfold prompt_for, build_prompt.
  split; [|split; [|split; [|split; [|done]]]].
  - apply str_in_join. set_unfold. tauto.
  - eapply str_in_trans; [|apply (str_in_join nl ("Assemble code to: " +:+ query))].
    + apply str_in_app_r, str_in_refl.
    + set_unfold. tauto.
  - intros c src Hc Hsrc.
    eapply str_in_trans;
      [|apply (str_in_join nl (join (nl +:+ nl) (context_of <$> chunks))); set_unfold; tauto].
    eapply str_in_trans; [|apply (str_in_join _ (context_of c)); by apply list_elem_of_fmap_2].
    unfold context_of. rewrite Hsrc. cbn [fmt default]. do 6 apply str_in_app_r.
    apply str_in_refl.
  - intros e ->.
    eapply str_in_trans;
      [|apply (str_in_join nl (error_section_of (Some e) +:+ "<|im_end|>")); set_unfold; tauto].
    apply str_in_app_l. destruct e as [|a e]; [apply str_in_empty|].
    cbn [error_section_of]. do 5 apply str_in_app_r. apply str_in_app_l, str_in_refl.
Qed.

(** X22. When the model of the [Assembler] class is loaded, the chunk list
    is not empty, the generation succeeds and the answer holds an object
    with a reasoning, a file name and a code that is a string or is
    missing, the class returns the model's answer: its reasoning, its file
    name, whatever it is, and its code after [_clean_code]; no validator
    rule is applied and no fallback is taken. *)
Theorem assembler_class_returns_the_model_answer (model_loaded : bool)
    (generate : string → option string) (find_json : string → string + ModelData)
    (schema_error : ModelData → string) (chunks : list Chunk)
    (user_request response : string) (data : ModelData) (r f : string) :
  model_loaded = true →
  chunks ≠ [] →
  generate (AssemblerPy._build_prompt chunks user_request) = Some response →
  find_json response = inr data →
  data_reasoning data = Some r →
  data_filename data = Some f →
  data_code data ≠ JOther →
  AssemblerPy.generate_glue_code model_loaded generate find_json schema_error
    (inr chunks) user_request =
  {| reasoning := r;
     code := AssemblerPy._clean_code (match data_code data with JString s => s | _ => "" end);
     out_filename := f |}.
Proof.
  intros -> Hne Hg Hj Hr Hf Hc. unfold AssemblerPy.generate_glue_code.
  destruct chunks as [|c cs]; [done|]. rewrite Hg.
  unfold AssemblerPy._parse_response. rewrite Hj, Hr, Hf.
  by destruct (data_code data).
Qed.

Lemma assembler_class_returns_the_model_answer_witness :
  let chunks := [{| source := Some "def foo(): pass"; filename := Some "utils";
                    func_name := Some "foo"; signature := None |}] in
  let fenced := "```python" +:+ nl +:+ "import os" +:+ nl +:+ "```" in
  let data := {| data_reasoning := Some "call nothing"; data_code := JString fenced;
                 data_filename := Some "glue.py" |} in
  let generate := λ _ : string, Some "{}" in
  let find_json := λ _ : string, inr data : string + ModelData in
  true = true ∧ chunks ≠ []
  ∧ generate (AssemblerPy._build_prompt chunks "call foo") = Some "{}"
  ∧ find_json "{}" = inr data
  ∧ data_reasoning data = Some "call nothing"
  ∧ data_filename data = Some "glue.py"
  ∧ data_code data ≠ JOther
  ∧ AssemblerPy.generate_glue_code true generate find_json (λ _, "") (inr chunks) "call foo" =
    {| reasoning := "call nothing"; code := "import os"; out_filename := "glue.py" |}.
Proof.
  cbn zeta.
  set (chunks := [{| source := Some "def foo(): pass"; filename := Some "utils";
                     func_name := Some "foo"; signature := None |}]).
  set (data := {| data_reasoning := Some "call nothing";
                  data_code := JString ("```python" +:+ nl +:+ "import os" +:+ nl +:+ "```");
                  data_filename := Some "glue.py" |}).
  assert (chunks ≠ []) as Hne by done.
  assert (data_code data ≠ JOther) as Hc by done.
  repeat (split; [done|]).
  exact (assembler_class_returns_the_model_answer true (λ _, Some "{}") (λ _, inr data)
           (λ _, "") chunks "call foo" "{}" data "call nothing" "glue.py"
           eq_refl Hne eq_refl eq_refl eq_refl eq_refl Hc).
Defined.

(** X23. One turn of the interactive tool: when retrieval returns null, in
    particular when the index file is missing, the tool reports no chunk
    and shows the mock stub, without consulting the model; without a model
    it shows the stub for every query; and the number of chunks it reports
    for a successful retrieval is never zero. *)
Theorem answer_without_context (model_loaded : bool) (generate : string → option string)
    (find_json : string → string + ModelData) (schema_error : ModelData → string)
    (index : list (string * IndexValue)) (query : string) :
  let answer := MainPy.answer model_loaded generate find_json schema_error in
  (Retriever.search index query = None →
   answer index query = (0, AssemblerPy._mock_response))
  ∧ answer (MainPy._load_index None) query = (0, AssemblerPy._mock_response)
  ∧ (model_loaded = false → (answer index query).2 = AssemblerPy._mock_response)
  ∧ (∀ results, Retriever.search index query = Some results →
       (answer index query).1 = length results ∧ 0 < length results).
Proof.
  cbn zeta. unfold MainPy.answer. split; [|split; [|split]].
  - intros ->. cbn. by destruct model_loaded.
  - assert (Retriever.search (MainPy._load_index None) query = None) as ->.
    { unfold Retriever.search. by destruct (Retriever.target_tokens query). }
    cbn. by destruct model_loaded.
  - intros ->. done.
  - intros results Hs. rewrite Hs. cbn. split; [done|].
    unfold Retriever.search in Hs. destruct (Retriever.target_tokens query); [done|].
    destruct (Retriever.search_loop _ index); [done|]. injection Hs as <-. cbn. lia.
Qed.

End FrontEndExtra.
